(** * dld-utils: a shallow embedding of the download engine

    The development follows the layout of the repository:
    - [JsString]: the string primitives of the JavaScript runtime the code
      relies on ([trim], [endsWith], [lastIndexOf], [substring]);
    - [JsNumber]: IEEE numbers as far as the progress arithmetic needs them
      (finite values, the two infinities and NaN);
    - the error classes of [src/errors/download-errors.js];
    - the collaborators (axios, fs, path-utils, cli-progress, main-utils, the
      console) as an environment of oracles, with every call recorded in the
      world's call history;
    - [FileManager] ([src/lib/file-manager.js]), [ProgressBar]
      ([src/utils/progress-bar.js]) and [Download] ([src/lib/download.js]). *)

From Stdlib Require Import Ascii QArith Qabs Qround Lqa.
From stdpp Require Import base tactics option list strings gmap pretty.

Open Scope Z_scope.

(* ===================================================================== *)
(** * JavaScript strings *)
(* ===================================================================== *)

(** A string is its sequence of code units, each below 256: the characters
    the engine itself looks at (white space, the dot, the path separator,
    digits) are all in this range. *)
Module JsString.

(** White space and line terminators of ECMAScript in the 8-bit range:
    TAB, LF, VT, FF, CR, SP and NBSP. *)
Definition is_whitespace (c : ascii) : bool :=
  match c with
  | "009" | "010" | "011" | "012" | "013" | " " | "160" => true
  | _ => false
  end%char.

(** [s.trimStart()] *)
Fixpoint trimStart (s : string) : string :=
  match s with
  | "" => ""
  | String c s' => if is_whitespace c then trimStart s' else s
  end.

(** [s.trimEnd()] *)
Fixpoint trimEnd (s : string) : string :=
  match s with
  | "" => ""
  | String c s' =>
      match trimEnd s' with
      | "" => if is_whitespace c then "" else String c ""
      | t => String c t
      end
  end.

(** [s.trim()] *)
Definition trim (s : string) : string := trimEnd (trimStart s).

(** [s.endsWith(suffix)] *)
Fixpoint endsWith (s suffix : string) : bool :=
  bool_decide (s = suffix) ||
  match s with
  | "" => false
  | String _ s' => endsWith s' suffix
  end.

(** [s.lastIndexOf(c)] for a one-character search string; [-1] when the
    character does not occur. *)
Fixpoint lastIndexOf (s : string) (c : ascii) : Z :=
  match s with
  | "" => -1
  | String a s' =>
      let i := lastIndexOf s' c in
      if bool_decide (i = -1)
      then (if bool_decide (a = c) then 0 else -1)
      else i + 1
  end.

(** [s.substring(start, end)] and [s.substring(start)], for indices within
    [0 .. s.length]. *)
Definition substring (s : string) (start end_ : Z) : string :=
  String.substring (Z.to_nat start) (Z.to_nat (end_ - start)) s.

Definition substring_from (s : string) (start : Z) : string :=
  substring s start (Z.of_nat (String.length s)).

(** A string consisting only of white space (the empty string included). *)
Fixpoint all_whitespace (s : string) : bool :=
  match s with
  | "" => true
  | String c s' => is_whitespace c && all_whitespace s'
  end.

(** The line feed of a template literal. *)
Definition LF : string := String "010" "".

End JsString.

Import JsString.

(* ===================================================================== *)
(** * JavaScript numbers *)
(* ===================================================================== *)

Module JsNumber.

(** A number is a finite value, an infinity or NaN.  Finite values are kept
    as exact reduced rationals: rounding of finite results and the sign of
    zero are not tracked, the classification finite / infinite / NaN is the
    one of IEEE arithmetic for the magnitudes that occur here (byte counts,
    millisecond clocks). *)
Inductive jsnum : Type :=
| Num (q : Q)
| PosInf
| NegInf
| NaN.

Definition of_Z (z : Z) : jsnum := Num (inject_Z z).

Definition isFinite (x : jsnum) : bool :=
  match x with Num _ => true | _ => false end.

Definition is_zero (q : Q) : bool := (Qnum q =? 0)%Z.
Definition is_neg (q : Q) : bool := (Qnum q <? 0)%Z.

Definition neg (x : jsnum) : jsnum :=
  match x with
  | Num q => Num (Qred (- q)%Q)
  | PosInf => NegInf
  | NegInf => PosInf
  | NaN => NaN
  end.

(** The infinity carrying the sign of [q], NaN when [q] is zero. *)
Definition signed_inf (q : Q) : jsnum :=
  if is_zero q then NaN else if is_neg q then NegInf else PosInf.

(** [x - y] *)
Definition sub (x y : jsnum) : jsnum :=
  match x, y with
  | NaN, _ | _, NaN => NaN
  | Num a, Num b => Num (Qred (a - b)%Q)
  | PosInf, PosInf | NegInf, NegInf => NaN
  | PosInf, _ | _, NegInf => PosInf
  | NegInf, _ | _, PosInf => NegInf
  end.

(** [x * y] *)
Definition mul (x y : jsnum) : jsnum :=
  match x, y with
  | NaN, _ | _, NaN => NaN
  | Num a, Num b => Num (Qred (a * b)%Q)
  | Num a, PosInf | PosInf, Num a => signed_inf a
  | Num a, NegInf | NegInf, Num a => neg (signed_inf a)
  | PosInf, PosInf | NegInf, NegInf => PosInf
  | PosInf, NegInf | NegInf, PosInf => NegInf
  end.

(** [x / y]; a finite zero divisor is the positive zero.  A finite quotient
    is the exact rational, not the double nearest to it: a quotient too large
    for a double does not become an infinity here, and a text printed from a
    quotient can differ from the code's in its last digit at a decimal tie
    (the code prints [0.03 / 2] as [0.01]).  With a zero divisor the result is
    the one of IEEE arithmetic. *)
Definition div (x y : jsnum) : jsnum :=
  match x, y with
  | NaN, _ | _, NaN => NaN
  | Num a, Num b => if is_zero b then signed_inf a else Num (Qred (a / b)%Q)
  | Num _, (PosInf | NegInf) => Num 0
  | PosInf, Num b => if is_neg b then NegInf else PosInf
  | NegInf, Num b => if is_neg b then PosInf else NegInf
  | (PosInf | NegInf), (PosInf | NegInf) => NaN
  end.

Definition two_digits (n : Z) : string :=
  pretty (n / 10) +:+ pretty (n mod 10).

(** [x.toFixed(2)] for magnitudes below 10^21: the sign is taken first, the
    absolute value is rounded to the nearest hundredth, the larger one on a
    tie. *)
Definition toFixed2 (x : jsnum) : string :=
  match x with
  | NaN => "NaN"
  | PosInf => "Infinity"
  | NegInf => "-Infinity"
  | Num q =>
      let n := Qfloor (Qabs q * 100 + (1 # 2))%Q in
      (if is_neg q then "-" else "") +:+
      pretty (n / 100) +:+ "." +:+ two_digits (n mod 100)
  end.

(** Reading decimal digits. *)
Definition digit_of (c : ascii) : option Z :=
  match Ascii.is_nat c with
  | Some d => Some (Z.of_nat d)
  | None => None
  end.

(** [digits acc s]: the value of the longest prefix of decimal digits of
    [s] appended to [acc], how many digits were read, and the rest. *)
Fixpoint digits (acc : Z) (count : nat) (s : string) : Z * nat * string :=
  match s with
  | "" => (acc, count, s)
  | String c s' =>
      match digit_of c with
      | Some d => digits (acc * 10 + d) (S count) s'
      | None => (acc, count, s)
      end
  end.

Definition strip_sign (s : string) : bool * string :=
  match s with
  | String "-" s' => (true, s')
  | String "+" s' => (false, s')
  | _ => (false, s)
  end.

Definition apply_sign (negative : bool) (x : jsnum) : jsnum :=
  if negative then neg x else x.

(** The unsigned decimal literal at the start of [s] ([Infinity],
    [ddd], [ddd.ddd], [.ddd]; exponents are not produced by [toFixed]
    here), NaN when there is none. *)
Definition unsigned_literal (s : string) : jsnum :=
  if bool_decide (String.substring 0 8 s = "Infinity") then PosInf else
  let '(int_part, int_count, rest) := digits 0 0 s in
  match rest with
  | String "." frac =>
      let '(all, frac_count, _) := digits int_part 0 frac in
      if bool_decide (int_count + frac_count = 0)%nat then NaN
      else Num (Qred (inject_Z all / inject_Z (10 ^ Z.of_nat frac_count))%Q)
  | _ => if bool_decide (int_count = 0%nat) then NaN else of_Z int_part
  end.

(** [parseFloat(s)] *)
Definition parseFloat (s : string) : jsnum :=
  let '(negative, s') := strip_sign (trimStart s) in
  apply_sign negative (unsigned_literal s').

(** [parseInt(s, 10)].  The integer read is kept exact; the code rounds one
    above 2^53 to the nearest double. *)
Definition parseInt10 (s : string) : jsnum :=
  let '(negative, s') := strip_sign (trimStart s) in
  let '(value, count, _) := digits 0 0 s' in
  if bool_decide (count = 0%nat) then NaN else apply_sign negative (of_Z value).

(** A value that is a number or a string, and its coercion to a number by
    an arithmetic operator (for the strings [toFixed] produces this is the
    literal they spell; the empty string is zero). *)
Inductive numeric : Type :=
| VNum (x : jsnum)
| VStr (s : string).

Definition ToNumber (v : numeric) : jsnum :=
  match v with
  | VNum x => x
  | VStr s => if bool_decide (trim s = "") then Num 0 else parseFloat s
  end.

(** [x || 0] on numbers: NaN and zero are falsy. *)
Definition or_zero (x : jsnum) : jsnum :=
  match x with
  | NaN => Num 0
  | Num q => if is_zero q then Num 0 else x
  | _ => x
  end.

End JsNumber.

Import JsNumber.

(* ===================================================================== *)
(** * Errors ([src/errors/download-errors.js]) *)
(* ===================================================================== *)

(** Thrown values.  [Error_] and [TypeError] are the built-in classes (an
    error raised by a collaborator is an [Error_]); the other three are the
    subclasses of [DownloadError], each with the fields its constructor
    sets. *)
Inductive JsError : Type :=
| Error_ (message : string)
| TypeError (message : string)
| FetchError (message url : string) (originalError : JsError)
| FileSystemError (message path : string) (originalError : JsError)
| DownloadFailedError (message url path : string) (originalError : JsError).

(** [error.message] *)
Definition error_message (e : JsError) : string :=
  match e with
  | Error_ m | TypeError m | FetchError m _ _ | FileSystemError m _ _
  | DownloadFailedError m _ _ _ => m
  end.

(** [error.code], set by the [DownloadError] constructor. *)
Definition error_code (e : JsError) : option string :=
  match e with
  | Error_ _ | TypeError _ => None
  | FetchError _ _ _ => Some "FETCH_ERROR"
  | FileSystemError _ _ _ => Some "FILE_SYSTEM_ERROR"
  | DownloadFailedError _ _ _ _ => Some "DOWNLOAD_FAILED"
  end.

(** [error.originalError] *)
Definition error_originalError (e : JsError) : option JsError :=
  match e with
  | Error_ _ | TypeError _ => None
  | FetchError _ _ o | FileSystemError _ _ o | DownloadFailedError _ _ _ o => Some o
  end.

(** [error.url] *)
Definition error_url (e : JsError) : option string :=
  match e with
  | FetchError _ u _ | DownloadFailedError _ u _ _ => Some u
  | _ => None
  end.

(** [error.name]: the [DownloadError] constructor sets it to the name of
    the class ([this.constructor.name]); the built-in classes have their
    own. *)
Definition error_name (e : JsError) : string :=
  match e with
  | Error_ _ => "Error"
  | TypeError _ => "TypeError"
  | FetchError _ _ _ => "FetchError"
  | FileSystemError _ _ _ => "FileSystemError"
  | DownloadFailedError _ _ _ _ => "DownloadFailedError"
  end.

(* ===================================================================== *)
(** * The world around the engine *)
(* ===================================================================== *)

(** The levels of the ConsoleMessages logger the engine uses. *)
Inductive LogLevel : Type := LogNormal | LogSucces | LogError.

(** A chunk of the response body. *)
Definition Buffer : Type := list Byte.byte.

Definition Buffer_length (chunk : Buffer) : Z := Z.of_nat (length chunk).

(** What the response stream and the write sink emit once the transfer is
    wired: chunks, the end of the response, an error of the response
    stream, an error of the write stream. *)
Inductive StreamEvent : Type :=
| on_data (chunk : Buffer)
| on_end
| on_error (err : JsError)
| on_write_error (err : JsError).

(** [response.data]: its headers object, when it has one, and the events it
    (and the sink piped to it) will emit, in emission order. *)
Record Stream : Type := {
  headers : option (gmap string string);
  events : list StreamEvent;
}.

(** Calls the engine makes to its collaborators. *)
Inductive Call : Type :=
| AxiosGet (url : string) (timeout : Z)
| MakeDir (dirPath : string)
| ExistsSync (path : string)
| CreateWriteStream (filePath : string)
| Pipe (filePath : string)
| DateNow
| MathRandom
| SecondsToDuration (seconds : jsnum)
| BarStart (total : string) (startValue : Z) (i : Z) (speed eta : string)
| BarUpdate (value : jsnum) (speed eta : string)
| BarStop
| ConsoleMessage (level : LogLevel) (text : string)
| ConsoleError (text : string).

(** The world: the paths that exist on the file system and the calls made so
    far, oldest first. *)
Record World : Type := {
  fs : gset string;
  calls : list Call;
}.

Definition record (c : Call) (w : World) : World :=
  {| fs := fs w; calls := calls w ++ [c] |}.

(** What a collaborator answers to a call: it returns or it throws. *)
Inductive answer (A : Type) : Type :=
| Returns (a : A)
| Throws (e : JsError).
Arguments Returns {A} a.
Arguments Throws {A} e.

(** How a synchronous computation completes.  [Diverge] is a computation
    that never completes: a loop that does not exit, an [await] on a promise
    that never settles. *)
Inductive completion (A : Type) : Type :=
| Normal (a : A)
| Throw (e : JsError)
| Diverge.
Arguments Normal {A} a.
Arguments Throw {A} e.
Arguments Diverge {A}.

Inductive Platform : Type := posix | win32.

(** The collaborators.  Each answer may depend on the world at the time of
    the call; [make_dir] and [createWriteStream] also say what the file
    system holds afterwards. *)
Record Env : Type := {
  platform : Platform;
  axios_get : World → string → Z → answer Stream;
  make_dir : World → string → answer bool * gset string;
  createWriteStream : World → string → answer unit * gset string;
  Date_now : World → Z;
  (** [Math.random().toString(36)] *)
  Math_random_toString36 : World → string;
  secondsToDuration : World → jsnum → answer string;
  SingleBar_start : World → answer unit;
  SingleBar_update : World → answer unit;
  SingleBar_stop : World → answer unit;
}.

(** [path.sep] *)
Definition path_sep (p : Platform) : string :=
  match p with
  | posix => "/"
  | win32 => "\"
  end.

(* ===================================================================== *)
(** * Computations: state passing with exceptions *)
(* ===================================================================== *)

(** A computation over a state [S] ends normally, throws or diverges, and
    leaves a state behind in each case: what was mutated before a throw
    stays mutated. *)
Definition M (S A : Type) : Type := S → completion A * S.

Global Instance M_ret {S} : MRet (M S) := λ A a s, (Normal a, s).

Global Instance M_bind {S} : MBind (M S) := λ A B f m s,
  match m s with
  | (Normal a, s') => f a s'
  | (Throw e, s') => (Throw e, s')
  | (Diverge, s') => (Diverge, s')
  end.

Definition throw {S A} (e : JsError) : M S A := λ s, (Throw e, s).

Definition diverge {S A} : M S A := λ s, (Diverge, s).

(** [try { body } catch (e) { handler e }] *)
Definition try_catch {S A} (body : M S A) (handler : JsError → M S A) : M S A :=
  λ s,
    match body s with
    | (Throw e, s') => handler e s'
    | r => r
    end.

(** [try { body } finally { final }] where [final] cannot throw. *)
Definition try_finally {S A} (body : M S A) (final : S → S) : M S A :=
  λ s, let '(r, s') := body s in (r, final s').

Definition get {S} : M S S := λ s, (Normal s, s).
Definition modify {S} (f : S → S) : M S unit := λ s, (Normal tt, f s).

(** Running a computation on the world inside a larger state. *)
Definition on_world {T A} (m : M World A) : M (T * World) A :=
  λ '(t, w), let '(r, w') := m w in (r, (t, w')).

(** A call to a collaborator that cannot throw. *)
Definition call (c : Call) : M World unit := modify (record c).

Definition completion_of {A} (r : answer A) : completion A :=
  match r with
  | Returns a => Normal a
  | Throws e => Throw e
  end.

(** A call whose outcome the environment decides from the world it is made
    in. *)
Definition call_oracle {A} (c : Call) (oracle : World → answer A) : M World A :=
  λ w, (completion_of (oracle w), record c w).

(** A call that also changes the file system. *)
Definition call_fs_oracle {A} (c : Call) (oracle : World → answer A * gset string)
  : M World A :=
  λ w, let '(r, fs') := oracle w in
       (completion_of r, {| fs := fs'; calls := calls w ++ [c] |}).

(** The ConsoleMessages logger and the raw console. *)
Definition consoleMessages_normal (text : string) : M World unit :=
  call (ConsoleMessage LogNormal text).

Definition consoleMessages_succes (text : string) : M World unit :=
  call (ConsoleMessage LogSucces text).

Definition consoleMessages_error (text : string) : M World unit :=
  call (ConsoleMessage LogError text).

Definition console_error (text : string) : M World unit :=
  call (ConsoleError text).

(** [Date.now()] *)
Definition DateNow_ (env : Env) : M World Z :=
  λ w, (Normal (Date_now env w), record DateNow w).

(** [Math.random().toString(36)] *)
Definition Math_random_toString36_ (env : Env) : M World string :=
  λ w, (Normal (Math_random_toString36 env w), record MathRandom w).

(* ===================================================================== *)
(** * FileManager ([src/lib/file-manager.js]) *)
(* ===================================================================== *)

Module FileManager.
Section WithEnv.

Variable env : Env.

(** [fs.existsSync(path)]: it answers from the file system and never
    throws. *)
Definition existsSync (path : string) : M World bool :=
  λ w, (Normal (bool_decide (path ∈ fs w)), record (ExistsSync path) w).

(** [this.pathCreator.make_dir(dirPath)] *)
Definition pathCreator_make_dir (dirPath : string) : M World bool :=
  call_fs_oracle (MakeDir dirPath) (λ w, make_dir env w dirPath).

Definition ensureDirectoryExists (dirPath : string) : M World bool :=
  try_catch
    (if bool_decide (trim dirPath = "") then mret true
     else pathCreator_make_dir dirPath)
    (λ error,
       throw (FileSystemError ("Failed to create directory: " +:+ dirPath)
                dirPath error)).

Definition normalizeDirPath (dirPath : string) : string :=
  if bool_decide (trim dirPath = "") then ""
  else if endsWith (trim dirPath) (path_sep (platform env))
       then trim dirPath
       else trim dirPath +:+ path_sep (platform env).

(** The candidate of the counter strategy: [`${baseName}-(${counter})${extension}`]. *)
Definition counter_name (baseName extension : string) (counter : nat) : string :=
  baseName +:+ "-(" +:+ pretty counter +:+ ")" +:+ extension.

(** The [do ... while (existsSync(...))] loop of the counter strategy, for
    at most [fuel] rounds; a loop that has not exited by then is [Diverge].
    [generateUniqueFilename] gives it one round more than the file system
    has paths, which is always enough for it to exit
    ([generateUniqueFilename_normal]). *)
Fixpoint counter_loop (normalizedPath baseName extension : string)
    (fuel counter : nat) : M World string :=
  match fuel with
  | O => diverge
  | S fuel' =>
      let uniqueName := counter_name baseName extension counter in
      taken ← existsSync (normalizedPath +:+ uniqueName);
      if taken : bool
      then counter_loop normalizedPath baseName extension fuel' (S counter)
      else mret uniqueName
  end.

(** Lines 67-69: the file name split at its last dot. *)
Definition parse_baseName (fileName : string) : string :=
  let lastDotIndex := lastIndexOf fileName "." in
  if bool_decide (lastDotIndex ≠ -1)
  then substring fileName 0 lastDotIndex else fileName.

Definition parse_extension (fileName : string) : string :=
  let lastDotIndex := lastIndexOf fileName "." in
  if bool_decide (lastDotIndex ≠ -1)
  then substring_from fileName lastDotIndex else "".

(** [generateUniqueFilename(dirPath, fileName, { strategy })]; [strategy]
    is [None] when the option is not given. *)
Definition generateUniqueFilename (dirPath fileName : string)
    (strategy : option string) : M World string :=
  let strategy := default "timestamp" strategy in
  let normalizedPath := normalizeDirPath dirPath in
  let fullPath := normalizedPath +:+ fileName in
  present ← existsSync fullPath;
  if negb present then mret fileName else
  let baseName := parse_baseName fileName in
  let extension := parse_extension fileName in
  if bool_decide (strategy = "timestamp") then
    now ← DateNow_ env;
    mret (baseName +:+ "-" +:+ pretty now +:+ extension)
  else if bool_decide (strategy = "counter") then
    w ← get;
    counter_loop normalizedPath baseName extension (S (size (fs w))) 1
  else if bool_decide (strategy = "random") then
    digits36 ← Math_random_toString36_ env;
    let randomStr := substring digits36 2 8 in
    mret (baseName +:+ "-" +:+ randomStr +:+ extension)
  else
    now ← DateNow_ env;
    mret (baseName +:+ "-" +:+ pretty now +:+ extension).

Definition createFileWriteStream (filePath : string) : M World unit :=
  try_catch
    (call_fs_oracle (CreateWriteStream filePath)
       (λ w, createWriteStream env w filePath))
    (λ error,
       throw (FileSystemError
                ("Failed to create write stream for file: " +:+ filePath)
                filePath error)).

End WithEnv.
End FileManager.

(* ===================================================================== *)
(** * ProgressBar ([src/utils/progress-bar.js]) *)
(* ===================================================================== *)

Module ProgressBar.

(** The mutable fields of a tracker.  [totalSizeMB] is the number [0]
    until [start] stores the string [toFixed(2)] returns.  The render
    surface [this.bar] is a collaborator. *)
Record t : Type := {
  totalSize : Z;
  startTime : Z;
  totalSizeMB : numeric;
  isActive : bool;
}.

(** [new ProgressBar()] *)
Definition new : t :=
  {| totalSize := 0; startTime := 0; totalSizeMB := VNum (Num 0);
     isActive := false |}.

Definition set_totalSize (v : Z) (this : t) : t :=
  {| totalSize := v; startTime := startTime this;
     totalSizeMB := totalSizeMB this; isActive := isActive this |}.
Definition set_startTime (v : Z) (this : t) : t :=
  {| totalSize := totalSize this; startTime := v;
     totalSizeMB := totalSizeMB this; isActive := isActive this |}.
Definition set_totalSizeMB (v : numeric) (this : t) : t :=
  {| totalSize := totalSize this; startTime := startTime this;
     totalSizeMB := v; isActive := isActive this |}.
Definition set_isActive (v : bool) (this : t) : t :=
  {| totalSize := totalSize this; startTime := startTime this;
     totalSizeMB := totalSizeMB this; isActive := v |}.

(** Methods run on the object and the world. *)
Definition this_ : M (t * World) t := λ s, (Normal (s.1), s).
Definition assign (f : t → t) : M (t * World) unit :=
  modify (λ s, (f s.1, s.2)).

Section WithEnv.

Variable env : Env.

(** [data.headers["content-length"]]; reading a property of a missing
    headers object throws. *)
Definition content_length_header (data : Stream) : M (t * World) (option string) :=
  match headers data with
  | Some h => mret (h !! "content-length")
  | None =>
      throw (TypeError
               "Cannot read properties of undefined (reading 'content-length')")
  end.

Definition start (data : Stream) (barNumber : Z) : M (t * World) unit :=
  this ← this_;
  if isActive this then throw (Error_ "Progress bar is already active") else
  assign (set_totalSize 0);;
  now ← on_world (DateNow_ env);
  assign (set_startTime now);;
  assign (set_isActive true);;
  try_catch
    (header ← content_length_header data;
     let contentLength :=
       or_zero (match header with Some s => parseInt10 s | None => NaN end) in
     let total := toFixed2 (div contentLength (of_Z (1024 * 1024))) in
     assign (set_totalSizeMB (VStr total));;
     on_world (call_oracle (BarStart total 0 barNumber "N/A" "00:00:00")
                 (SingleBar_start env)))
    (λ error,
       assign (set_isActive false);;
       throw (Error_ ("Failed to start progress bar: " +:+ error_message error))).

Definition update (chunk : Buffer) : M (t * World) unit :=
  this ← this_;
  if negb (isActive this) then mret tt else
  try_catch
    (assign (set_totalSize (totalSize this + Buffer_length chunk));;
     this ← this_;
     let downloadedSizeMB :=
       parseFloat (toFixed2 (div (of_Z (totalSize this)) (of_Z (1024 * 1024)))) in
     now ← on_world (DateNow_ env);
     let elapsedTime := div (of_Z (now - startTime this)) (of_Z 1000) in
     let speed := toFixed2 (div downloadedSizeMB elapsedTime) in
     let remainingSizeMB := sub (ToNumber (totalSizeMB this)) downloadedSizeMB in
     let estimatedTimeRemaining :=
       div (mul remainingSizeMB elapsedTime) downloadedSizeMB in
     eta ← on_world (call_oracle (SecondsToDuration estimatedTimeRemaining)
                       (λ w, secondsToDuration env w estimatedTimeRemaining));
     on_world (call_oracle (BarUpdate downloadedSizeMB speed eta)
                 (SingleBar_update env)))
    (λ error,
       on_world (console_error
                   ("Progress bar update error: " +:+ error_message error))).

Definition stop : M (t * World) unit :=
  this ← this_;
  if isActive this then
    try_finally
      (try_catch
         (on_world (call_oracle BarStop (SingleBar_stop env)))
         (λ error,
            on_world (console_error
                        ("Error stopping progress bar: " +:+ error_message error))))
      (λ s, (set_isActive false s.1, s.2))
  else mret tt.

End WithEnv.
End ProgressBar.

(* ===================================================================== *)
(** * Download ([src/lib/download.js]) *)
(* ===================================================================== *)

(** A promise as its caller finds it: settled with a value, settled with a
    reason, or never settled. *)
Inductive promise (A : Type) : Type :=
| Resolved (a : A)
| Rejected (e : JsError)
| Pending.
Arguments Resolved {A} a.
Arguments Rejected {A} e.
Arguments Pending {A}.

(** [await p]: the value, the reason thrown, or no continuation at all. *)
Definition await {A} (p : World → promise A * World) : M World A :=
  λ w,
    match p w with
    | (Resolved a, w') => (Normal a, w')
    | (Rejected e, w') => (Throw e, w')
    | (Pending, w') => (Diverge, w')
    end.

(** An argument that should be an object. *)
Inductive jsarg (A : Type) : Type :=
| undefined
| null
| object (o : A).
Arguments undefined {A}.
Arguments null {A}.
Arguments object {A} o.

Module Download.

(** The fields of a [Download] instance besides its logger and its file
    manager. *)
Record t : Type := {
  timeout : Z;
  fileNamingStrategy : string;
}.

(** The options object of the constructor, and [new Download(options)]. *)
Record Options : Type := {
  options_timeout : option Z;
  options_fileNamingStrategy : option string;
}.

Definition new (options : Options) : t :=
  {| timeout := default 5000 (options_timeout options);
     fileNamingStrategy :=
       default "timestamp" (options_fileNamingStrategy options) |}.

(** The options object of [downloadOne]; [{}] has every field [None]. *)
Record DownloadOneOptions : Type := {
  path : option string;
  fileName : option string;
  downloadNumber : option Z;
  optFileNamingStrategy : option string;
}.

(** [{}] *)
Definition no_options : DownloadOneOptions :=
  {| path := None; fileName := None; downloadNumber := None;
     optFileNamingStrategy := None |}.

(** An options object where [downloadOne] takes its [options] argument. *)
Definition options_object (o : DownloadOneOptions) : jsarg DownloadOneOptions :=
  object o.

(** A request object of [downloadMany]: DOWNLOAD_MANY_OPTIONS is [url]
    together with every field of DOWNLOAD_ONE_OPTIONS. *)
Record DownloadManyOptions : Type := {
  url : string;
  options : DownloadOneOptions;
}.

(** [{ success: true, filePath }] and [{ success: false, error }] *)
Inductive Result : Type :=
| Success (filePath : string)
| Failure (error : JsError).

Definition success (r : Result) : bool :=
  match r with Success _ => true | Failure _ => false end.

(** How the guarded part of [downloadOne] returns: a result object, or the
    promise that the handlers it registered on the stream settle. *)
Inductive Returned : Type :=
| ReturnResult (result : Result)
| ReturnPromise (filePath : string) (dataStream : Stream) (progressBar : ProgressBar.t).

(** [value || "Unknown error"] on an optional string. *)
Definition or_unknown_error (m : option string) : string :=
  match m with
  | None | Some "" => "Unknown error"
  | Some s => s
  end.

(** A method call on the object the local [progressBar] refers to. *)
Definition on_progressBar {A} (m : M (ProgressBar.t * World) A)
  : M (option ProgressBar.t * World) A :=
  λ '(pb, w),
    match pb with
    | Some this => let '(r, (this', w')) := m (this, w) in (r, (Some this', w'))
    | None =>
        (Throw (TypeError "Cannot read properties of null"), (pb, w))
    end.

Section WithEnv.

Variable this : t.
Variable env : Env.

(** [#fetchData(url)] *)
Definition fetchData (url : string) : M World Stream :=
  try_catch
    (call_oracle (AxiosGet url (timeout this))
       (λ w, axios_get env w url (timeout this)))
    (λ error,
       throw (FetchError ("Failed to fetch data from URL: " +:+ url) url error)).

(** Lines 78-125: the outer [try] after the fetch. *)
Definition transfer (url path fileName : string) (downloadNumber : Z)
    (fileNamingStrategy : string) (dataStream : Stream)
  : M (option ProgressBar.t * World) Returned :=
  ok ← on_world (FileManager.ensureDirectoryExists env path);
  if negb ok then
    on_world (consoleMessages_error ("Failed to create directory: " +:+ path));;
    mret (ReturnResult (Failure (Error_ ("Failed to create directory: " +:+ path))))
  else
  let normalizedPath := FileManager.normalizeDirPath env path in
  uniqueFileName ← on_world (FileManager.generateUniqueFilename env normalizedPath
                               fileName (Some fileNamingStrategy));
  let filePath := normalizedPath +:+ uniqueFileName in
  modify (λ s, (Some ProgressBar.new, s.2));;
  on_progressBar (ProgressBar.start env dataStream downloadNumber);;
  on_world (FileManager.createFileWriteStream env filePath);;
  on_world (call (Pipe filePath));;
  s ← get;
  match s.1 with
  | Some progressBar => mret (ReturnPromise filePath dataStream progressBar)
  | None => throw (TypeError "Cannot read properties of null")
  end.

(** Lines 70-125: the body of the outer [try]. *)
Definition try_body (url path fileName : string) (downloadNumber : Z)
    (fileNamingStrategy : string)
  : M (option ProgressBar.t * World) Returned :=
  fetched ← try_catch
              (dataStream ← on_world (fetchData url); mret (inr dataStream))
              (λ error,
                 on_world (consoleMessages_error
                   (error_message error +:+ LF +:+ "Error details: " +:+
                    or_unknown_error (error_message <$> error_originalError error)));;
                 mret (inl (ReturnResult (Failure error))));
  match fetched with
  | inl early => mret early
  | inr dataStream =>
      transfer url path fileName downloadNumber fileNamingStrategy dataStream
  end.

(** Lines 126-132: the outer [catch]. *)
Definition catch_block (url : string) (error : JsError)
  : M (option ProgressBar.t * World) Returned :=
  s ← get;
  (if s.1 is Some _ then on_progressBar (ProgressBar.stop env) else mret tt);;
  on_world (consoleMessages_error
    ("Error downloading from URL: " +:+ url +:+ LF +:+ "Error details: " +:+
     error_message error));;
  mret (ReturnResult (Failure error)).

(** Lines 69-132: the outer [try] with its [catch]. *)
Definition guarded (url path fileName : string) (downloadNumber : Z)
    (fileNamingStrategy : string)
  : M (option ProgressBar.t * World) Returned :=
  try_catch
    (try_body url path fileName downloadNumber fileNamingStrategy)
    (catch_block url).

(** The handlers registered on the response stream and on the write
    stream (lines 95 and 104-124); [Some] is a call of [resolve]. *)
Definition handler (url filePath : string) (ev : StreamEvent)
  : M (ProgressBar.t * World) (option Result) :=
  match ev with
  | on_data chunk =>
      ProgressBar.update env chunk;;
      mret None
  | on_end =>
      ProgressBar.stop env;;
      on_world (consoleMessages_succes
        ("Download completed." +:+ LF +:+ "File saved at: '" +:+ filePath +:+ "'"));;
      mret (Some (Success filePath))
  | on_error err =>
      ProgressBar.stop env;;
      let error :=
        DownloadFailedError ("Download failed for URL: " +:+ url) url filePath err in
      on_world (consoleMessages_error
        (error_message error +:+ LF +:+ "Error details: " +:+ error_message err));;
      mret (Some (Failure error))
  | on_write_error err =>
      ProgressBar.stop env;;
      let error :=
        DownloadFailedError ("Failed to write file: " +:+ filePath) url filePath err in
      on_world (consoleMessages_error
        (error_message error +:+ LF +:+ "Error details: " +:+ error_message err));;
      mret (Some (Failure error))
  end.

(** The events are emitted one after the other; the first call of
    [resolve] settles the promise, later calls change nothing. *)
Fixpoint emit (url filePath : string) (evs : list StreamEvent)
    (settled : option Result) : M (ProgressBar.t * World) (option Result) :=
  match evs with
  | [] => mret settled
  | ev :: evs' =>
      resolved ← handler url filePath ev;
      emit url filePath evs' (if settled is Some _ then settled else resolved)
  end.

(** The promise of line 102 once the stream has emitted its events.  An
    exception escaping a handler would be an uncaught exception of the
    emitter, not a rejection: the promise stays unsettled. *)
Definition transfer_promise (url filePath : string) (dataStream : Stream)
    (progressBar : ProgressBar.t) (w : World) : promise Result * World :=
  match emit url filePath (events dataStream) None (progressBar, w) with
  | (Normal (Some result), s) => (Resolved result, s.2)
  | (_, s) => (Pending, s.2)
  end.

(** [async downloadOne(url, options = {})].  The default parameter stands in
    for [undefined] only.  Line 63 destructures [options] before the [try] of
    line 69 opens: on [null] it throws, and what an [async] method throws
    rejects its promise. *)
Definition downloadOne (url : string) (options : jsarg DownloadOneOptions)
  : World → promise Result * World :=
  let options := if options is undefined then object no_options else options in
  match options with
  | object options =>
      let path := default "" (path options) in
      let fileName := default "file" (fileName options) in
      let downloadNumber := default 1 (downloadNumber options) in
      let fileNamingStrategy :=
        default (fileNamingStrategy this) (optFileNamingStrategy options) in
      λ w,
        match guarded url path fileName downloadNumber fileNamingStrategy (None, w) with
        | (Normal (ReturnResult result), s) => (Resolved result, s.2)
        | (Normal (ReturnPromise filePath dataStream progressBar), s) =>
            transfer_promise url filePath dataStream progressBar s.2
        | (Throw e, s) => (Rejected e, s.2)
        | (Diverge, s) => (Pending, s.2)
        end
  | _ =>
      λ w,
        (Rejected (TypeError
           "Cannot destructure property 'path' of 'options' as it is null."), w)
  end.

(** [const { url, path = "", fileName = "file" } = options]: destructuring
    [undefined] or [null] throws. *)
Definition destructure (options : jsarg DownloadManyOptions)
  : M (list Result * World) (string * string * string) :=
  match options with
  | object o =>
      mret (url o, default "" (path (Download.options o)),
            default "file" (fileName (Download.options o)))
  | undefined =>
      throw (TypeError
        "Cannot destructure property 'url' of 'options' as it is undefined.")
  | null =>
      throw (TypeError
        "Cannot destructure property 'url' of 'options' as it is null.")
  end.

(** The [for] loop of lines 150-165 from index [i] on, over the arguments
    that remain. *)
Fixpoint for_loop (i : nat) (rest : list (jsarg DownloadManyOptions))
  : M (list Result * World) unit :=
  match rest with
  | [] => mret tt
  | options :: rest' =>
      '(url, path, fileName) ← destructure options;
      let downloadNumber := Z.of_nat i + 1 in
      result ← on_world (await (downloadOne url
                 (object {| path := Some path; fileName := Some fileName;
                            downloadNumber := Some downloadNumber;
                            optFileNamingStrategy := None |})));
      modify (λ s, (s.1 ++ [result], s.2));;
      for_loop (S i) rest'
  end.

(** [totalDownloads > 1 ? "s" : ""] *)
Definition plural (n : nat) : string := if bool_decide (1 < n)%nat then "s" else "".

Definition downloadMany (downloadOptions : list (jsarg DownloadManyOptions))
  : World → promise (list Result) * World :=
  let totalDownloads := length downloadOptions in
  λ w,
    let body : M (list Result * World) (list Result) :=
      try_catch
        (on_world (consoleMessages_normal
           ("Starting download of " +:+ pretty totalDownloads +:+ " file" +:+
            plural totalDownloads +:+ "."));;
         for_loop 0 downloadOptions;;
         s ← get;
         let results := s.1 in
         let successCount := length (filter (λ r, success r = true) results) in
         on_world (consoleMessages_normal
           ("Download summary: " +:+ pretty successCount +:+ "/" +:+
            pretty totalDownloads +:+ " files downloaded successfully."));;
         mret results)
        (λ error,
           on_world (consoleMessages_error
             ("Error in batch download: " +:+ error_message error));;
           s ← get;
           mret s.1) in
    match body ([], w) with
    | (Normal results, s) => (Resolved results, s.2)
    | (Throw e, s) => (Rejected e, s.2)
    | (Diverge, s) => (Pending, s.2)
    end.

End WithEnv.
End Download.

(** In what follows an options object stands for itself as an argument. *)
Coercion Download.options_object : Download.DownloadOneOptions >-> jsarg.

(* ===================================================================== *)
(** * The documented defaults ([src/constants/download-options.js]) *)
(* ===================================================================== *)

Module Constants.
Import Download.

Definition DOWNLOAD_ONE_OPTIONS : DownloadOneOptions :=
  {| path := Some "";
     fileName := Some "file";
     downloadNumber := Some 1;
     optFileNamingStrategy := Some "timestamp" |}.

(** [{ url: "", ...DOWNLOAD_ONE_OPTIONS }] *)
Definition DOWNLOAD_MANY_OPTIONS : DownloadManyOptions :=
  {| url := ""; options := DOWNLOAD_ONE_OPTIONS |}.

End Constants.

(* ===================================================================== *)
(** * The usage example ([examples/basic-usage.js]) *)
(* ===================================================================== *)

Module BasicUsage.
Import Download.

(** A property in a template literal; a missing one prints as
    [undefined]. *)
Definition template (value : option string) : string := default "undefined" value.

Section WithEnv.

Variable env : Env.

(** [handleDownloadErrors()] *)
Definition handleDownloadErrors : World → promise unit * World :=
  let downloader :=
    Download.new {| options_timeout := None; options_fileNamingStrategy := None |} in
  λ w,
    let body : M World unit :=
      try_catch
        (result ← await (downloadOne downloader env "https://invalid-url.example"
                           {| path := Some "./downloads";
                              fileName := Some "will-fail.txt";
                              downloadNumber := None;
                              optFileNamingStrategy := None |});
         match result with
         | Success _ => mret tt
         | Failure error =>
             console_error ("Error type: " +:+ error_name error);;
             console_error ("Error code: " +:+ template (error_code error));;
             match error_originalError error with
             | Some originalError =>
                 console_error ("Original error: " +:+ error_message originalError)
             | None => mret tt
             end
         end)
        (λ error, console_error ("Unexpected error: " +:+ error_message error)) in
    match body w with
    | (Normal _, w') => (Resolved tt, w')
    | (Throw e, w') => (Rejected e, w')
    | (Diverge, w') => (Pending, w')
    end.

End WithEnv.
End BasicUsage.

(* ===================================================================== *)
(** * Vocabulary of the statements *)
(* ===================================================================== *)

Module Spec.
Import Download.

(** What the handler of an event passes to [resolve], if it calls it. *)
Definition resolution (url filePath : string) (ev : StreamEvent) : option Result :=
  match ev with
  | on_data _ => None
  | on_end => Some (Success filePath)
  | on_error err =>
      Some (Failure (DownloadFailedError ("Download failed for URL: " +:+ url)
                       url filePath err))
  | on_write_error err =>
      Some (Failure (DownloadFailedError ("Failed to write file: " +:+ filePath)
                       url filePath err))
  end.

(** The first resolution among the events of a transfer. *)
Fixpoint settlement (url filePath : string) (evs : list StreamEvent) : option Result :=
  match evs with
  | [] => None
  | ev :: evs' =>
      match resolution url filePath ev with
      | Some result => Some result
      | None => settlement url filePath evs'
      end
  end.

Definition promise_of (settled : option Result) : promise Result :=
  match settled with
  | Some result => Resolved result
  | None => Pending
  end.

Definition is_data (ev : StreamEvent) : bool :=
  match ev with on_data _ => true | _ => false end.

(** A stream that comes to an end: it emits ['end'] or an ['error'], or
    its sink does. *)
Definition comes_to_an_end (data : Stream) : bool :=
  existsb (λ ev, negb (is_data ev)) (events data).

(** Every response the HTTP client hands out comes to an end. *)
Definition responses_end (env : Env) : Prop :=
  ∀ w url timeout data,
    axios_get env w url timeout = Returns data → comes_to_an_end data = true.

(** The world in which [downloadOne] resolves the file name: after the
    fetch and after the directory was ensured. *)
Definition world_at_resolution (this : Download.t) (env : Env)
    (url path : string) (w : World) : World :=
  (FileManager.ensureDirectoryExists env path
     (record (AxiosGet url (timeout this)) w)).2.

(** The paths the counter loop probes: [n] candidates from [counter] on. *)
Definition probes (normalizedPath baseName extension : string)
    (counter n : nat) : list Call :=
  (λ j, ExistsSync (normalizedPath +:+
                    FileManager.counter_name baseName extension j))
    <$> seq counter n.

(** The options [downloadMany] is said to run the request at position [i]
    with: its [path] and [fileName], the 1-based position as display
    number, the naming strategy of the instance. *)
Definition forwarded (this : Download.t) (i : nat) (request : DownloadManyOptions)
  : DownloadOneOptions :=
  {| path := Some (default "" (path (options request)));
     fileName := Some (default "file" (fileName (options request)));
     downloadNumber := Some (Z.of_nat i + 1);
     optFileNamingStrategy := Some (fileNamingStrategy this) |}.

(** [batch this env i requests w results w']: running the requests one
    after the other from position [i] in world [w], each through
    [downloadOne] with the [forwarded] options, each in the world the
    previous one left, gives [results] in this order and leaves [w']. *)
Inductive batch (this : Download.t) (env : Env)
  : nat → list DownloadManyOptions → World → list Result → World → Prop :=
| batch_nil i w : batch this env i [] w [] w
| batch_cons i request requests w result w1 results w2 :
    downloadOne this env (url request) (forwarded this i request) w
      = (Resolved result, w1) →
    batch this env (S i) requests w1 results w2 →
    batch this env i (request :: requests) w (result :: results) w2.

(** Two requests that agree on [url], [path] and [fileName]. *)
Definition same_forwarded_fields (a b : DownloadManyOptions) : Prop :=
  url a = url b ∧
  path (options a) = path (options b) ∧
  fileName (options a) = fileName (options b).

(** The log lines that open and close a batch. *)
Definition starting (n : nat) : Call :=
  ConsoleMessage LogNormal
    ("Starting download of " +:+ pretty n +:+ " file" +:+ plural n +:+ ".").

Definition summary (results : list Result) (n : nat) : Call :=
  ConsoleMessage LogNormal
    ("Download summary: " +:+
     pretty (length (filter (λ r, success r = true) results)) +:+ "/" +:+
     pretty n +:+ " files downloaded successfully.").

Definition batch_error (e : JsError) : Call :=
  ConsoleMessage LogError ("Error in batch download: " +:+ error_message e).

(** The URLs fetched, in the order of the calls. *)
Definition fetched (cs : list Call) : list string :=
  omap (λ c, match c with AxiosGet url _ => Some url | _ => None end) cs.

(** The quantities [update] derives: the megabytes received so far, the
    seconds elapsed since [start], and the estimated seconds remaining. *)
Definition downloadedSizeMB (bytes : Z) : jsnum :=
  parseFloat (toFixed2 (div (of_Z bytes) (of_Z (1024 * 1024)))).

Definition elapsedTime (now startTime : Z) : jsnum :=
  div (of_Z (now - startTime)) (of_Z 1000).

Definition estimatedTimeRemaining (totalSizeMB : numeric)
    (downloaded elapsed : jsnum) : jsnum :=
  div (mul (sub (ToNumber totalSizeMB) downloaded) elapsed) downloaded.

(** The calls of [w'] are those of [w] followed by calls that fetch
    nothing. *)
Definition quiet_step (w w' : World) : Prop :=
  ∃ extra, calls w' = calls w ++ extra ∧ fetched extra = [].

(** States that hold the world. *)
Class HasWorld (S : Type) := world_of : S → World.
Global Instance World_HasWorld : HasWorld World := λ w, w.
Global Instance pair_HasWorld {T} : HasWorld (T * World) := snd.

(** A computation that fetches nothing, however it completes. *)
Definition quiet {S} `{HasWorld S} {A} (m : M S A) : Prop :=
  ∀ s, quiet_step (world_of s) (world_of (m s).2).

End Spec.

(* ===================================================================== *)
(** * Vocabulary of the call traces *)
(* ===================================================================== *)

Module Trace.
Import Download.

(** Calls that look without touching: the existence check, the clock, the
    random source. *)
Definition is_probe (c : Call) : bool :=
  match c with
  | ExistsSync _ | DateNow | MathRandom => true
  | _ => false
  end.

(** Calls of a running transfer: the clock, the duration formatter, the
    render surface and the two logs. *)
Definition is_progress (c : Call) : bool :=
  match c with
  | DateNow | SecondsToDuration _ | BarUpdate _ _ _ | BarStop
  | ConsoleMessage _ _ | ConsoleError _ => true
  | _ => false
  end.

Definition is_log (c : Call) : bool :=
  match c with
  | ConsoleMessage _ _ | ConsoleError _ => true
  | _ => false
  end.

(** [w'] has the file system of [w] and the calls of [w] followed by calls
    of one kind only. *)
Definition adds_only (kind : Call → bool) (w w' : World) : Prop :=
  fs w' = fs w ∧
  ∃ extra, calls w' = calls w ++ extra ∧ Forall (λ c, kind c = true) extra.

(** The line the handler of an event logs. *)
Definition handler_log (url filePath : string) (ev : StreamEvent) : list Call :=
  match ev with
  | on_data _ => []
  | on_end =>
      [ConsoleMessage LogSucces
         ("Download completed." +:+ LF +:+ "File saved at: '" +:+ filePath +:+ "'")]
  | on_error err =>
      [ConsoleMessage LogError
         (("Download failed for URL: " +:+ url) +:+ LF +:+ "Error details: " +:+
          error_message err)]
  | on_write_error err =>
      [ConsoleMessage LogError
         (("Failed to write file: " +:+ filePath) +:+ LF +:+ "Error details: " +:+
          error_message err)]
  end.

(** The bytes of a sequence of chunks. *)
Definition total_length (chunks : list Buffer) : Z :=
  foldr (λ chunk n, Buffer_length chunk + n) 0 chunks.

(** The batch as it is said to run, from position [i] on: each request goes
    through [downloadOne] with its [url], its [path] and [fileName], the
    1-based position as display number and the naming strategy of the
    instance ([Spec.forwarded]), in the world the previous one left; its
    result is appended to those collected.  The run stops, unfinished
    ([false]), at a transfer that does not resolve. *)
Fixpoint forwarded_run (this : Download.t) (env : Env) (i : nat)
    (requests : list DownloadManyOptions) (s : list Result * World)
  : bool * (list Result * World) :=
  match requests with
  | [] => (true, s)
  | request :: requests' =>
      match downloadOne this env (url request) (Spec.forwarded this i request) s.2 with
      | (Resolved result, w1) =>
          forwarded_run this env (S i) requests' (s.1 ++ [result], w1)
      | (_, w1) => (false, (s.1, w1))
      end
  end.

End Trace.

(* ===================================================================== *)
(** * A sample world, for evaluating the model *)
(* ===================================================================== *)

Module Sample.

(** A response of ten kilobytes delivered in two chunks. *)
Definition response : Stream :=
  {| headers := Some {[ "content-length" := "10240" ]};
     events := [on_data (replicate 1024 Byte.x00);
                on_data (replicate (Z.to_nat 9216) Byte.x00);
                on_end] |}.

(** An environment in which the host [unreachable] cannot be fetched, the
    directory [/denied] cannot be created, the clock advances by one second
    per call recorded, and the duration formatter, whose output is not
    known here, returns a placeholder. *)
Definition env : Env :=
  {| platform := posix;
     axios_get := λ w url timeout,
       if bool_decide (url = "http://unreachable/")
       then Throws (Error_ "getaddrinfo ENOTFOUND unreachable")
       else Returns response;
     make_dir := λ w dirPath,
       if bool_decide (dirPath = "/denied")
       then (Throws (Error_ "EACCES: permission denied"), fs w)
       else (Returns true, fs w);
     createWriteStream := λ w filePath, (Returns tt, {[filePath]} ∪ fs w);
     Date_now := λ w, 1700000000000 + 1000 * Z.of_nat (length (calls w));
     Math_random_toString36 := λ w, "0.4fzyo82mvyr";
     secondsToDuration := λ w seconds, Returns "<duration>";
     SingleBar_start := λ w, Returns tt;
     SingleBar_update := λ w, Returns tt;
     SingleBar_stop := λ w, Returns tt |}.

(** A render surface that fails to stop. *)
Definition env_stop_fails : Env :=
  {| platform := platform env;
     axios_get := axios_get env;
     make_dir := make_dir env;
     createWriteStream := createWriteStream env;
     Date_now := Date_now env;
     Math_random_toString36 := Math_random_toString36 env;
     secondsToDuration := secondsToDuration env;
     SingleBar_start := SingleBar_start env;
     SingleBar_update := SingleBar_update env;
     SingleBar_stop := λ w, Throws (Error_ "terminal is gone") |}.

(** A file system holding [out/a.txt] and [out/a-(1).txt]. *)
Definition world : World :=
  {| fs := {[ "out/a.txt"; "out/a-(1).txt" ]}; calls := [] |}.

Definition downloader : Download.t :=
  Download.new {| Download.options_timeout := None;
                  Download.options_fileNamingStrategy := Some "counter" |}.

Definition options (path fileName : string) : Download.DownloadOneOptions :=
  {| Download.path := Some path; Download.fileName := Some fileName;
     Download.downloadNumber := None; Download.optFileNamingStrategy := None |}.

(** A request that also carries a display number and a naming strategy. *)
Definition request (url path fileName : string) : Download.DownloadManyOptions :=
  {| Download.url := url;
     Download.options :=
       {| Download.path := Some path; Download.fileName := Some fileName;
          Download.downloadNumber := Some 7;
          Download.optFileNamingStrategy := Some "random" |} |}.

Definition plain_request (url path fileName : string) : Download.DownloadManyOptions :=
  {| Download.url := url; Download.options := options path fileName |}.

(** A tracker that was started for that response one second before the
    clock of [world]. *)
Definition tracker : ProgressBar.t :=
  {| ProgressBar.totalSize := 0; ProgressBar.startTime := 1699999999000;
     ProgressBar.totalSizeMB := VStr "0.01"; ProgressBar.isActive := true |}.

End Sample.

(** Further worlds: collaborators that fail, a stream that never ends. *)
Module Cases.

(** No host can be reached. *)
Definition env_offline : Env :=
  {| platform := platform Sample.env;
     axios_get := λ w url timeout, Throws (Error_ ("getaddrinfo ENOTFOUND " +:+ url));
     make_dir := make_dir Sample.env;
     createWriteStream := createWriteStream Sample.env;
     Date_now := Date_now Sample.env;
     Math_random_toString36 := Math_random_toString36 Sample.env;
     secondsToDuration := secondsToDuration Sample.env;
     SingleBar_start := SingleBar_start Sample.env;
     SingleBar_update := SingleBar_update Sample.env;
     SingleBar_stop := SingleBar_stop Sample.env |}.

(** No file can be opened for writing. *)
Definition env_sink_fails : Env :=
  {| platform := platform Sample.env;
     axios_get := axios_get Sample.env;
     make_dir := make_dir Sample.env;
     createWriteStream := λ w filePath,
       (Throws (Error_ "EISDIR: illegal operation on a directory"), fs w);
     Date_now := Date_now Sample.env;
     Math_random_toString36 := Math_random_toString36 Sample.env;
     secondsToDuration := secondsToDuration Sample.env;
     SingleBar_start := SingleBar_start Sample.env;
     SingleBar_update := SingleBar_update Sample.env;
     SingleBar_stop := SingleBar_stop Sample.env |}.

(** Every response delivers one chunk and then neither ends nor fails. *)
Definition env_endless : Env :=
  {| platform := platform Sample.env;
     axios_get := λ w url timeout,
       Returns {| headers := Some {[ "content-length" := "10240" ]};
                  events := [on_data (replicate 1024 Byte.x00)] |};
     make_dir := make_dir Sample.env;
     createWriteStream := createWriteStream Sample.env;
     Date_now := Date_now Sample.env;
     Math_random_toString36 := Math_random_toString36 Sample.env;
     secondsToDuration := secondsToDuration Sample.env;
     SingleBar_start := SingleBar_start Sample.env;
     SingleBar_update := SingleBar_update Sample.env;
     SingleBar_stop := SingleBar_stop Sample.env |}.

(** A tracker started at the very millisecond of the clock of
    [Sample.world]. *)
Definition tracker_just_started : ProgressBar.t :=
  {| ProgressBar.totalSize := 0; ProgressBar.startTime := 1700000000000;
     ProgressBar.totalSizeMB := VStr "0.01"; ProgressBar.isActive := true |}.

(** A response whose sink fails before the response ends. *)
Definition disk_full : list StreamEvent :=
  [on_data (replicate 1024 Byte.x00);
   on_write_error (Error_ "ENOSPC: no space left on device");
   on_end].

End Cases.

(* ===================================================================== *)
(** * The model at work *)
(* ===================================================================== *)

Example trim_example : trim ("  my files " +:+ LF) = "my files".
Proof. reflexivity. Qed.

Example lastIndexOf_example :
  lastIndexOf "archive.tar.gz" "." = 11 ∧ lastIndexOf "README" "." = -1.
Proof. by vm_compute. Qed.

Example parse_example :
  FileManager.parse_baseName "archive.tar.gz" = "archive.tar"
  ∧ FileManager.parse_extension "archive.tar.gz" = ".gz"
  ∧ FileManager.parse_baseName ".bashrc" = ""
  ∧ FileManager.parse_extension "README" = "".
Proof. by vm_compute. Qed.

(** 131072 bytes are an eighth of a megabyte: the tie rounds up. *)
Example toFixed2_example :
  toFixed2 (div (of_Z 131072) (of_Z (1024 * 1024))) = "0.13"
  ∧ toFixed2 (div (of_Z 10240) (of_Z (1024 * 1024))) = "0.01"
  ∧ toFixed2 (div (Num 0) (Num 0)) = "NaN".
Proof. by vm_compute. Qed.

Example parseInt10_example :
  or_zero (parseInt10 "10240") = of_Z 10240
  ∧ or_zero (parseInt10 "chunked") = Num 0
  ∧ parseFloat "0.13" = Num (13 # 100).
Proof. by vm_compute. Qed.

(** Scenario B of the specification: [./out/a.txt] exists, [./out/a-(1).txt]
    does not, counter strategy. *)
Example scenario_B :
  (FileManager.generateUniqueFilename Sample.env "./out" "a.txt" (Some "counter")
     {| fs := {[ "./out/a.txt" ]}; calls := [] |}).1
  = Normal "a-(1).txt".
Proof. by vm_compute. Qed.

(** A download into the sample world: the name is taken twice, the counter
    strategy of the instance finds [a-(2).txt]; the first chunk is too small
    for an estimate. *)
Example downloadOne_example :
  let run := Download.downloadOne Sample.downloader Sample.env "http://example.com/a"
               (Sample.options " out " "a.txt") Sample.world in
  run.1 = Resolved (Download.Success "out/a-(2).txt")
  ∧ calls run.2
    = [AxiosGet "http://example.com/a" 5000;
       MakeDir " out ";
       ExistsSync "out/a.txt"; ExistsSync "out/a-(1).txt"; ExistsSync "out/a-(2).txt";
       DateNow;
       BarStart "0.01" 0 1 "N/A" "00:00:00";
       CreateWriteStream "out/a-(2).txt";
       Pipe "out/a-(2).txt";
       DateNow; SecondsToDuration PosInf; BarUpdate (Num 0) "0.00" "<duration>";
       DateNow; SecondsToDuration (Num 0); BarUpdate (Num (1 # 100)) "0.00" "<duration>";
       BarStop;
       ConsoleMessage LogSucces
         ("Download completed." +:+ LF +:+ "File saved at: 'out/a-(2).txt'")].
Proof. by vm_compute. Qed.

(** Scenario E of the specification, with a fetch error in the middle. *)
Example downloadMany_example :
  (Download.downloadMany Sample.downloader Sample.env
     [object (Sample.plain_request "http://example.com/a" "out" "a.txt");
      object (Sample.plain_request "http://unreachable/" "out" "b.txt");
      object (Sample.plain_request "http://example.com/c" "out" "a.txt")]
     Sample.world).1
  = Resolved
      [Download.Success "out/a-(2).txt";
       Download.Failure
         (FetchError "Failed to fetch data from URL: http://unreachable/"
            "http://unreachable/" (Error_ "getaddrinfo ENOTFOUND unreachable"));
       Download.Success "out/a-(3).txt"].
Proof. by vm_compute. Qed.

(* ===================================================================== *)
(** * Facts about the string primitives *)
(* ===================================================================== *)

Section StringFacts.

Lemma string_app_nil_l (t : string) : "" +:+ t = t.
Proof. reflexivity. Qed.

Lemma string_app_cons (c : ascii) (s t : string) : String c s +:+ t = String c (s +:+ t).
Proof. reflexivity. Qed.

Lemma string_length_app (s t : string) :
  String.length (s +:+ t) = (String.length s + String.length t)%nat.
Proof.
  induction s as [|c s IH]; [done|]. rewrite string_app_cons. simpl. by rewrite IH.
Qed.

Lemma string_app_nil_r (s : string) : s +:+ "" = s.
Proof. induction s as [|c s IH]; [done|]. by rewrite string_app_cons, IH. Qed.

Lemma string_app_assoc (s t u : string) : (s +:+ t) +:+ u = s +:+ t +:+ u.
Proof. induction s as [|c s IH]; [done|]. by rewrite !string_app_cons, IH. Qed.

(** Cancelling a common suffix. *)
Lemma string_app_inv_tail (t s1 s2 : string) : s1 +:+ t = s2 +:+ t → s1 = s2.
Proof.
  revert s2. induction s1 as [|c s1 IH]; intros [|d s2] H;
    rewrite ?string_app_cons, ?string_app_nil_l in H.
  - done.
  - apply (f_equal String.length) in H. simpl in H. rewrite string_length_app in H. lia.
  - apply (f_equal String.length) in H. simpl in H. rewrite string_length_app in H. lia.
  - injection H as -> H. f_equal. by apply IH.
Qed.

Lemma trimStart_blank s : all_whitespace s = true ↔ trimStart s = "".
Proof.
  induction s as [|c s IH]; simpl; [done|].
  destruct (is_whitespace c); simpl; [done | split; done].
Qed.

(** What [trimStart] returns is empty or begins with a visible character. *)
Lemma trimStart_head s :
  trimStart s = "" ∨ ∃ c t, trimStart s = String c t ∧ is_whitespace c = false.
Proof.
  induction s as [|c s IH]; simpl; [by left|].
  destruct (is_whitespace c) eqn:Hc; [done | right; eauto].
Qed.

Lemma trimEnd_head c t :
  is_whitespace c = false → ∃ t', trimEnd (String c t) = String c t'.
Proof. intros Hc. simpl. destruct (trimEnd t); rewrite ?Hc; eauto. Qed.

Lemma trim_blank s : all_whitespace s = true ↔ trim s = "".
Proof.
  unfold trim. rewrite trimStart_blank. split; [by intros ->|].
  intros H. destruct (trimStart_head s) as [|(c & t & Ht & Hc)]; [done|].
  rewrite Ht in H. destruct (trimEnd_head c t Hc) as [t' Ht']. congruence.
Qed.

Lemma trimEnd_idemp s : trimEnd (trimEnd s) = trimEnd s.
Proof.
  induction s as [|c s IH]; simpl; [done|].
  destruct (trimEnd s) as [|d u] eqn:Hs.
  - destruct (is_whitespace c) eqn:Hc; simpl; [done | by rewrite Hc].
  - change (trimEnd (String c (String d u))) with
      (match trimEnd (String d u) with
       | "" => if is_whitespace c then "" else String c ""
       | t => String c t end).
    by rewrite IH.
Qed.

Lemma trimStart_visible c t :
  is_whitespace c = false → trimStart (String c t) = String c t.
Proof. intros Hc. simpl. by rewrite Hc. Qed.

(** A trimmed string is empty or begins with a visible character. *)
Lemma trim_head s :
  trim s = "" ∨ ∃ c t, trim s = String c t ∧ is_whitespace c = false.
Proof.
  unfold trim. destruct (trimStart_head s) as [->|(c & t & -> & Hc)]; [by left|].
  right. destruct (trimEnd_head c t Hc) as [t' ->]. eauto.
Qed.

Lemma trim_idemp s : trim (trim s) = trim s.
Proof.
  destruct (trim_head s) as [->|(c & t & Ht & Hc)]; [done|].
  unfold trim at 1. rewrite Ht, (trimStart_visible _ _ Hc), <- Ht.
  apply trimEnd_idemp.
Qed.

Lemma trimEnd_snoc s c :
  is_whitespace c = false → trimEnd (s +:+ String c "") = s +:+ String c "".
Proof.
  intros Hc. induction s as [|a s IH].
  - rewrite string_app_nil_l. simpl. by rewrite Hc.
  - rewrite string_app_cons.
    change (trimEnd (String a (s +:+ String c ""))) with
      (match trimEnd (s +:+ String c "") with
       | "" => if is_whitespace a then "" else String a ""
       | t => String a t end).
    rewrite IH. by destruct s.
Qed.

Lemma endsWith_spec s suffix :
  endsWith s suffix = true ↔ ∃ front, s = front +:+ suffix.
Proof.
  induction s as [|a s IH]; simpl.
  - rewrite orb_false_r, bool_decide_eq_true. split.
    + intros <-. by exists "".
    + intros [[|??] H]; [done | discriminate].
  - rewrite orb_true_iff, bool_decide_eq_true, IH. split.
    + intros [<- | [front ->]]; [by exists "" | by exists (String a front)].
    + intros [[|b front] H]; [by left|].
      rewrite string_app_cons in H. injection H as -> ->. right. eauto.
Qed.

Lemma endsWith_app s suffix : endsWith (s +:+ suffix) suffix = true.
Proof. apply endsWith_spec. eauto. Qed.

Lemma lastIndexOf_range s c :
  lastIndexOf s c = -1 ∨ 0 ≤ lastIndexOf s c < Z.of_nat (String.length s).
Proof.
  induction s as [|a s IH]; simpl; [by left|].
  case_bool_decide as Hi.
  - case_bool_decide; [right; lia | by left].
  - right. lia.
Qed.

Lemma substring_all s : String.substring 0 (String.length s) s = s.
Proof. induction s as [|a s IH]; simpl; [done | by rewrite IH]. Qed.

Lemma substring_split (n : nat) s :
  (n ≤ String.length s)%nat →
  String.substring 0 n s +:+ String.substring n (String.length s - n) s = s.
Proof.
  revert n. induction s as [|a s IH]; intros [|n] Hn; simpl in *; try lia.
  - done.
  - by rewrite string_app_nil_l, substring_all.
  - rewrite string_app_cons. f_equal. apply IH. lia.
Qed.

End StringFacts.

(* ===================================================================== *)
(** * Facts about computations *)
(* ===================================================================== *)

Ltac unfold_M :=
  unfold consoleMessages_error, consoleMessages_normal, consoleMessages_succes,
    console_error, DateNow_, Math_random_toString36_,
    call, call_oracle, call_fs_oracle, completion_of, on_world,
    mbind, M_bind, mret, M_ret, try_catch, try_finally, throw, diverge,
    get, modify in *.

(** One step of a sequence, in a hypothesis or in the goal. *)
Ltac bind_in H := unfold mbind at 1 in H; unfold M_bind at 1 in H.
Ltac bind_goal := unfold mbind at 1; unfold M_bind at 1.

(* ===================================================================== *)
(** * Facts about FileManager *)
(* ===================================================================== *)

Section FileManagerFacts.
Variable env : Env.
Import FileManager Spec.

Lemma parse_split fileName :
  parse_baseName fileName +:+ parse_extension fileName = fileName.
Proof.
  unfold parse_baseName, parse_extension.
  destruct (lastIndexOf_range fileName ".") as [-> | Hi].
  - rewrite !bool_decide_false by lia. apply string_app_nil_r.
  - rewrite !bool_decide_true by lia.
    unfold substring_from, substring.
    replace (Z.to_nat 0) with 0%nat by done.
    replace (Z.to_nat (lastIndexOf fileName "." - 0))
      with (Z.to_nat (lastIndexOf fileName ".")) by lia.
    replace (Z.to_nat (Z.of_nat (String.length fileName) - lastIndexOf fileName "."))
      with (String.length fileName - Z.to_nat (lastIndexOf fileName "."))%nat by lia.
    apply substring_split. lia.
Qed.

Lemma counter_name_inj baseName extension :
  Inj (=) (=) (counter_name baseName extension).
Proof.
  intros n m H. unfold counter_name in H.
  apply (inj (String.app baseName)), (inj (String.app "-(")) in H.
  apply string_app_inv_tail in H. by apply (inj pretty) in H.
Qed.

(** A name with a dash and anything else between base and extension is
    longer than the name it decorates. *)
Lemma decorated_ne (baseName mid extension : string) :
  baseName +:+ "-" +:+ mid +:+ extension ≠ baseName +:+ extension.
Proof.
  intros H. apply (f_equal String.length) in H.
  rewrite !string_length_app in H. simpl in H. lia.
Qed.

Lemma normalizeDirPath_idemp dirPath :
  normalizeDirPath env (normalizeDirPath env dirPath) = normalizeDirPath env dirPath.
Proof.
  unfold normalizeDirPath at 2 3.
  case_bool_decide as Hblank; [done|].
  assert (∃ c, path_sep (platform env) = String c "" ∧ is_whitespace c = false)
    as (c & Hsep & Hc) by (destruct (platform env); eauto).
  destruct (endsWith (trim dirPath) (path_sep (platform env))) eqn:Hends.
  - unfold normalizeDirPath. rewrite trim_idemp, bool_decide_false, Hends; done.
  - destruct (trim_head dirPath) as [|(a & t & Ht & Ha)]; [done|].
    assert (trim (trim dirPath +:+ path_sep (platform env))
            = trim dirPath +:+ path_sep (platform env)) as Htrim.
    { unfold trim at 1. rewrite Ht, string_app_cons, (trimStart_visible _ _ Ha).
      rewrite <- string_app_cons, Hsep. by apply trimEnd_snoc. }
    unfold normalizeDirPath. rewrite Htrim, endsWith_app.
    rewrite bool_decide_false; [done|].
    rewrite Ht, string_app_cons. done.
Qed.

Lemma probes_cons normalizedPath baseName extension counter n :
  probes normalizedPath baseName extension counter (S n)
  = ExistsSync (normalizedPath +:+ counter_name baseName extension counter)
      :: probes normalizedPath baseName extension (S counter) n.
Proof. reflexivity. Qed.

(** The loop either exits at the first free candidate, having probed every
    candidate up to it, or it uses up its fuel on candidates that all
    exist. *)
Lemma counter_loop_spec normalizedPath baseName extension fuel counter w :
  (∃ n, (counter ≤ n < counter + fuel)%nat ∧
     (counter_loop normalizedPath baseName extension fuel counter w
      = (Normal (counter_name baseName extension n),
         {| fs := fs w;
            calls := calls w ++
              probes normalizedPath baseName extension counter (S n - counter) |})) ∧
     (normalizedPath +:+ counter_name baseName extension n ∉ fs w) ∧
     ∀ j, (counter ≤ j < n)%nat →
          normalizedPath +:+ counter_name baseName extension j ∈ fs w)
  ∨ (∃ w', (counter_loop normalizedPath baseName extension fuel counter w
            = (Diverge, w')) ∧
     ∀ j, (counter ≤ j < counter + fuel)%nat →
          normalizedPath +:+ counter_name baseName extension j ∈ fs w).
Proof.
  revert counter w. induction fuel as [|fuel IH]; intros counter w.
  { right. exists w. split; [done | intros; lia]. }
  cbn [counter_loop]. unfold mbind, M_bind, existsSync.
  case_bool_decide as Hin.
  - destruct (IH (S counter) (record (ExistsSync (normalizedPath +:+
               counter_name baseName extension counter)) w))
      as [(n & Hn & Heq & Hout & Hbelow) | (w' & Heq & Hall)].
    + left. exists n. split; [lia|]. split; [|split].
      * rewrite Heq. cbn [record fs calls].
        replace (S n - counter)%nat with (S (S n - S counter)) by lia.
        by rewrite probes_cons, <- (assoc_L (++)).
      * done.
      * intros j Hj. destruct (decide (j = counter)) as [->|]; [done|].
        apply Hbelow. lia.
    + right. exists w'. split; [done|]. intros j Hj.
      destruct (decide (j = counter)) as [->|]; [done|]. apply Hall. lia.
  - left. exists counter. split; [lia|]. split; [|split].
    + replace (S counter - counter)%nat with 1%nat by lia. done.
    + done.
    + intros; lia.
Qed.

(** More distinct paths than the file system holds cannot all exist. *)
Lemma counter_pigeonhole normalizedPath baseName extension (X : gset string) :
  ¬ ∀ j, (1 ≤ j < 1 + S (size X))%nat →
         normalizedPath +:+ counter_name baseName extension j ∈ X.
Proof.
  intros Hall.
  set (l := (λ j, normalizedPath +:+ counter_name baseName extension j)
              <$> seq 1 (S (size X))).
  assert (NoDup l) as Hnodup.
  { apply NoDup_fmap_2; [|apply NoDup_seq].
    intros n m H. apply (inj (String.app normalizedPath)) in H.
    by apply counter_name_inj in H. }
  assert (list_to_set l ⊆ X) as Hsub.
  { intros p Hp. apply elem_of_list_to_set, list_elem_of_fmap in Hp
      as (j & -> & Hj). apply elem_of_seq in Hj. apply Hall. lia. }
  apply subseteq_size in Hsub.
  rewrite size_list_to_set in Hsub by done.
  unfold l in Hsub. rewrite length_fmap, length_seq in Hsub. lia.
Qed.

Lemma generateUniqueFilename_absent dirPath fileName strategy w :
  normalizeDirPath env dirPath +:+ fileName ∉ fs w →
  generateUniqueFilename env dirPath fileName strategy w
  = (Normal fileName,
     record (ExistsSync (normalizeDirPath env dirPath +:+ fileName)) w).
Proof.
  intros H. unfold generateUniqueFilename, existsSync. unfold_M.
  by rewrite bool_decide_false.
Qed.

Lemma generateUniqueFilename_present dirPath fileName strategy w :
  normalizeDirPath env dirPath +:+ fileName ∈ fs w →
  ∃ uniqueName w',
    generateUniqueFilename env dirPath fileName strategy w = (Normal uniqueName, w') ∧
    fs w' = fs w ∧
    uniqueName ≠ fileName ∧
    (strategy = Some "counter" →
     ∃ n, (1 ≤ n)%nat ∧
       uniqueName = counter_name (parse_baseName fileName) (parse_extension fileName) n ∧
       (normalizeDirPath env dirPath +:+ uniqueName ∉ fs w) ∧
       ∀ m, (1 ≤ m < n)%nat →
         normalizeDirPath env dirPath +:+
           counter_name (parse_baseName fileName) (parse_extension fileName) m ∈ fs w).
Proof.
  intros Hin. unfold generateUniqueFilename, existsSync.
  bind_goal. rewrite bool_decide_true by done.
  cbn [negb].
  set (baseName := parse_baseName fileName).
  set (extension := parse_extension fileName).
  set (w1 := record _ w).
  assert (∀ mid, baseName +:+ "-" +:+ mid +:+ extension ≠ fileName) as Hne.
  { intros mid. rewrite <- (parse_split fileName) at 1. apply decorated_ne. }
  destruct strategy as [strategy|]; cbn [default].
  2:{ rewrite bool_decide_true by done. unfold_M. cbn.
      eexists _, _. split; [done|]. split; [reflexivity|].
      split; [apply Hne | done]. }
  case_bool_decide as Ht.
  { unfold_M. cbn. eexists _, _. split; [done|]. split; [reflexivity|].
    split; [apply Hne | intros [= ->]; discriminate]. }
  case_bool_decide as Hc.
  { unfold mbind, M_bind, get. cbn [fs w1 record].
    destruct (counter_loop_spec (normalizeDirPath env dirPath) baseName extension
                (S (size (fs w))) 1 w1)
      as [(n & Hn & Heq & Hout & Hbelow) | (w' & _ & Hall)].
    - rewrite Heq. eexists _, _. split; [done|]. split; [reflexivity|]. split.
      + intros H. apply (Hne ("(" +:+ pretty n +:+ ")")).
        rewrite <- H, !string_app_assoc. reflexivity.
      + intros _. exists n. split; [lia|]. split; [done|]. split; [done|].
        intros m Hm. apply Hbelow. lia.
    - by apply counter_pigeonhole in Hall. }
  case_bool_decide as Hr.
  { unfold_M. cbn. eexists _, _. split; [done|]. split; [reflexivity|].
    split; [apply Hne | intros [= ->]; done]. }
  unfold_M. cbn. eexists _, _. split; [done|]. split; [reflexivity|].
  split; [apply Hne | intros [= ->]; done].
Qed.

(** The resolver always returns: the counter loop cannot run forever on a
    finite file system. *)
Lemma generateUniqueFilename_normal dirPath fileName strategy w :
  ∃ uniqueName w',
    generateUniqueFilename env dirPath fileName strategy w = (Normal uniqueName, w') ∧
    fs w' = fs w.
Proof.
  destruct (decide (normalizeDirPath env dirPath +:+ fileName ∈ fs w)) as [Hin|Hout].
  - destruct (generateUniqueFilename_present _ _ strategy _ Hin)
      as (name & w' & ? & ? & _). eauto.
  - rewrite generateUniqueFilename_absent by done. eauto.
Qed.

Lemma ensureDirectoryExists_no_diverge path w :
  (ensureDirectoryExists env path w).1 ≠ Diverge.
Proof.
  unfold ensureDirectoryExists, pathCreator_make_dir.
  unfold_M. case_bool_decide; [done|].
  destruct (make_dir env w path) as [[|] ?]; done.
Qed.

Lemma createFileWriteStream_no_diverge filePath w :
  (createFileWriteStream env filePath w).1 ≠ Diverge.
Proof.
  unfold createFileWriteStream. unfold_M.
  destruct (createWriteStream env w filePath) as [[|] ?]; done.
Qed.

End FileManagerFacts.

(* ===================================================================== *)
(** * Facts about ProgressBar *)
(* ===================================================================== *)

Section ProgressBarFacts.
Variable env : Env.
Import ProgressBar.

(** [update] swallows whatever its body throws. *)
Lemma update_normal chunk s : ∃ s', update env chunk s = (Normal tt, s').
Proof.
  destruct s as [this w]. unfold update, this_, assign. unfold_M. cbn.
  destruct (isActive this); cbn; [|eauto].
  destruct (secondsToDuration env _ _); cbn; [|eauto].
  destruct (SingleBar_update env _) as [[]|]; cbn; eauto.
Qed.

Lemma stop_inactive this w :
  isActive this = false → stop env (this, w) = (Normal tt, (this, w)).
Proof. intros H. unfold stop, this_. unfold_M. cbn. by rewrite H. Qed.

Lemma stop_active this w :
  isActive this = true →
  ∃ w', stop env (this, w) = (Normal tt, (set_isActive false this, w')).
Proof.
  intros H. unfold stop, this_. unfold_M. cbn. rewrite H.
  destruct (SingleBar_stop env _) as [[]|]; cbn; eauto.
Qed.

Lemma stop_normal s :
  ∃ s', stop env s = (Normal tt, s') ∧ isActive s'.1 = false.
Proof.
  destruct s as [this w]. destruct (isActive this) eqn:H.
  - destruct (stop_active this w H) as [w' ->]. eauto.
  - rewrite (stop_inactive this w H). eauto.
Qed.

Lemma start_no_diverge data barNumber s :
  (start env data barNumber s).1 ≠ Diverge.
Proof.
  destruct s as [pb w].
  unfold start, this_, assign, content_length_header.
  unfold_M. cbn. destruct (isActive pb); [done|]. cbn.
  destruct (headers data); cbn; [|done].
  destruct (SingleBar_start env _); done.
Qed.

End ProgressBarFacts.

(* ===================================================================== *)
(** * Facts about Download *)
(* ===================================================================== *)

Section DownloadFacts.
Variable this : Download.t.
Variable env : Env.
Import Download Spec.

(** The guarded part after a successful fetch: it throws, or it returns the
    directory failure, or it returns the promise for the path it resolved
    and the stream it was given.  It never diverges. *)
Lemma transfer_spec url path fileName downloadNumber strategy dataStream pb0 w :
  let r := transfer env url path fileName downloadNumber strategy dataStream (pb0, w) in
  (∃ e s', r = (Throw e, s'))
  ∨ (∃ s', r = (Normal (ReturnResult
               (Failure (Error_ ("Failed to create directory: " +:+ path)))), s'))
  ∨ (∃ w1 uniqueName w2 progressBar s',
       FileManager.ensureDirectoryExists env path w = (Normal true, w1) ∧
       FileManager.generateUniqueFilename env (FileManager.normalizeDirPath env path)
         fileName (Some strategy) w1 = (Normal uniqueName, w2) ∧
       r = (Normal (ReturnPromise (FileManager.normalizeDirPath env path +:+ uniqueName)
                      dataStream progressBar), s')).
Proof.
  intros r. assert (r = transfer env url path fileName downloadNumber strategy
                          dataStream (pb0, w)) as Hr by done.
  clearbody r. unfold transfer in Hr.
  bind_in Hr. unfold on_world at 1 in Hr.
  pose proof (ensureDirectoryExists_no_diverge env path w) as Hnd.
  destruct (FileManager.ensureDirectoryExists env path w) as [[[|]|e|] w1] eqn:Hens;
    [| | left; subst r; eauto | done].
  2:{ right; left. cbn [negb] in Hr. unfold_M. cbn in Hr. subst r. eauto. }
  cbn [negb] in Hr.
  bind_in Hr. unfold on_world at 1 in Hr.
  destruct (generateUniqueFilename_normal env (FileManager.normalizeDirPath env path)
              fileName (Some strategy) w1) as (uniqueName & w2 & Hgen & _).
  rewrite Hgen in Hr.
  bind_in Hr. unfold modify at 1 in Hr. cbn [fst snd] in Hr.
  bind_in Hr. unfold on_progressBar at 1 in Hr.
  pose proof (start_no_diverge env dataStream downloadNumber (ProgressBar.new, w2)) as Hsd.
  destruct (ProgressBar.start env dataStream downloadNumber (ProgressBar.new, w2))
    as [[[]|e|] [pb w3]] eqn:Hstart; [| left; subst r; eauto | done].
  bind_in Hr. unfold on_world at 1 in Hr.
  pose proof (createFileWriteStream_no_diverge env
                (FileManager.normalizeDirPath env path +:+ uniqueName) w3) as Hcd.
  destruct (FileManager.createFileWriteStream env _ w3) as [[[]|e|] w4] eqn:Hcws;
    [| left; subst r; eauto | done].
  right; right. unfold_M. cbn in Hr. subst r. eauto 10.
Qed.

Lemma try_body_fetch_failed url path fileName downloadNumber strategy pb0 w cause :
  axios_get env w url (timeout this) = Throws cause →
  try_body this env url path fileName downloadNumber strategy (pb0, w)
  = (Normal (ReturnResult (Failure
       (FetchError ("Failed to fetch data from URL: " +:+ url) url cause))),
     (pb0, record (ConsoleMessage LogError
                     (("Failed to fetch data from URL: " +:+ url) +:+ LF +:+
                      "Error details: " +:+ or_unknown_error (Some (error_message cause))))
             (record (AxiosGet url (timeout this)) w))).
Proof.
  intros H. unfold try_body, fetchData. unfold_M. by rewrite H.
Qed.

Lemma try_body_fetched url path fileName downloadNumber strategy pb0 w dataStream :
  axios_get env w url (timeout this) = Returns dataStream →
  try_body this env url path fileName downloadNumber strategy (pb0, w)
  = transfer env url path fileName downloadNumber strategy dataStream
      (pb0, record (AxiosGet url (timeout this)) w).
Proof.
  intros H. unfold try_body, fetchData. unfold_M. by rewrite H.
Qed.

(** The outer [catch] always returns the failure it was entered with. *)
Lemma catch_block_normal url e s :
  ∃ s', catch_block env url e s = (Normal (ReturnResult (Failure e)), s').
Proof.
  destruct s as [[pb|] w]; unfold catch_block, on_progressBar.
  - unfold mbind, M_bind, get. cbn [fst snd].
    destruct (stop_normal env (pb, w)) as ([pb' w'] & -> & _).
    unfold_M. eauto.
  - unfold_M. eauto.
Qed.

(** The outer [try] with its [catch] returns what the body returns, turns
    what the body throws into a failure result, and throws nothing. *)
Lemma guarded_spec url path fileName downloadNumber strategy s :
  match try_body this env url path fileName downloadNumber strategy s with
  | (Normal r, s') =>
      guarded this env url path fileName downloadNumber strategy s = (Normal r, s')
  | (Throw e, s') =>
      ∃ s'', guarded this env url path fileName downloadNumber strategy s
             = (Normal (ReturnResult (Failure e)), s'')
  | (Diverge, s') =>
      guarded this env url path fileName downloadNumber strategy s = (Diverge, s')
  end.
Proof.
  unfold guarded, try_catch.
  destruct (try_body this env url path fileName downloadNumber strategy s)
    as [[r|e|] s']; [done| |done].
  apply catch_block_normal.
Qed.

Lemma try_body_no_diverge url path fileName downloadNumber strategy pb0 w :
  (try_body this env url path fileName downloadNumber strategy (pb0, w)).1 ≠ Diverge.
Proof.
  destruct (axios_get env w url (timeout this)) as [dataStream|cause] eqn:Hget.
  - rewrite (try_body_fetched _ _ _ _ _ _ _ _ Hget).
    destruct (transfer_spec url path fileName downloadNumber strategy dataStream pb0
                (record (AxiosGet url (timeout this)) w))
      as [(e & s' & ->) | [(s' & ->) | (w1 & u & w2 & pb & s' & _ & _ & ->)]]; done.
  - by rewrite (try_body_fetch_failed _ _ _ _ _ _ _ _ Hget).
Qed.

(** Each handler completes, and calls [resolve] as [resolution] says. *)
Lemma handler_normal url filePath ev s :
  ∃ s', handler env url filePath ev s = (Normal (resolution url filePath ev), s').
Proof.
  destruct ev as [chunk| |err|err]; unfold handler; bind_goal.
  - destruct (update_normal env chunk s) as [s' ->]. unfold_M. eauto.
  - destruct (stop_normal env s) as (s' & -> & _). destruct s'. unfold_M. eauto.
  - destruct (stop_normal env s) as (s' & -> & _). destruct s'. unfold_M. eauto.
  - destruct (stop_normal env s) as (s' & -> & _). destruct s'. unfold_M. eauto.
Qed.

Lemma emit_normal url filePath evs settled s :
  ∃ s', emit env url filePath evs settled s
        = (Normal (if settled is Some _ then settled
                   else settlement url filePath evs), s').
Proof.
  revert settled s. induction evs as [|ev evs IH]; intros settled s; cbn [emit].
  - unfold_M. destruct settled; eauto.
  - bind_goal. destruct (handler_normal url filePath ev s) as [s1 ->].
    destruct (IH (if settled is Some _ then settled else resolution url filePath ev) s1)
      as [s' ->].
    exists s'. f_equal. f_equal. cbn [settlement].
    destruct settled; [done|]. by destruct (resolution url filePath ev).
Qed.

Lemma transfer_promise_spec url filePath dataStream progressBar w :
  (transfer_promise env url filePath dataStream progressBar w).1
  = promise_of (settlement url filePath (events dataStream)).
Proof.
  unfold transfer_promise.
  destruct (emit_normal url filePath (events dataStream) None (progressBar, w))
    as [s' ->].
  by destruct (settlement url filePath (events dataStream)).
Qed.

(** A stream that comes to an end settles the promise. *)
Lemma settlement_ends url filePath dataStream :
  comes_to_an_end dataStream = true →
  ∃ result, settlement url filePath (events dataStream) = Some result.
Proof.
  unfold comes_to_an_end. induction (events dataStream) as [|ev evs IH]; [done|].
  cbn [existsb settlement]. rewrite orb_true_iff. intros [Hev|Hevs].
  - destruct ev; [done|..]; cbn [resolution]; eauto.
  - destruct (resolution url filePath ev); eauto.
Qed.

(** [downloadOne] in terms of the guarded part. *)
Lemma downloadOne_unfold url (options : DownloadOneOptions) w :
  downloadOne this env url options w
  = match guarded this env url (default "" (path options))
            (default "file" (fileName options))
            (default 1 (downloadNumber options))
            (default (fileNamingStrategy this) (optFileNamingStrategy options))
            (None, w) with
    | (Normal (ReturnResult result), s) => (Resolved result, s.2)
    | (Normal (ReturnPromise filePath dataStream progressBar), s) =>
        transfer_promise env url filePath dataStream progressBar s.2
    | (Throw e, s) => (Rejected e, s.2)
    | (Diverge, s) => (Pending, s.2)
    end.
Proof. reflexivity. Qed.

(** The outcome of [downloadOne], case by case. *)
Lemma downloadOne_cases url (options : DownloadOneOptions) w :
  let path := default "" (path options) in
  let fileName := default "file" (fileName options) in
  let strategy := default (fileNamingStrategy this) (optFileNamingStrategy options) in
  let w0 := record (AxiosGet url (timeout this)) w in
  (∃ cause w',
     axios_get env w url (timeout this) = Throws cause ∧
     downloadOne this env url options w
     = (Resolved (Failure (FetchError ("Failed to fetch data from URL: " +:+ url)
                             url cause)), w'))
  ∨ (∃ dataStream e w',
       axios_get env w url (timeout this) = Returns dataStream ∧
       downloadOne this env url options w = (Resolved (Failure e), w'))
  ∨ (∃ dataStream w1 uniqueName w2 w',
       axios_get env w url (timeout this) = Returns dataStream ∧
       FileManager.ensureDirectoryExists env path w0 = (Normal true, w1) ∧
       FileManager.generateUniqueFilename env (FileManager.normalizeDirPath env path)
         fileName (Some strategy) w1 = (Normal uniqueName, w2) ∧
       downloadOne this env url options w
       = (promise_of (settlement url (FileManager.normalizeDirPath env path +:+ uniqueName)
                        (events dataStream)), w')).
Proof.
  intros path fileName strategy w0. rewrite downloadOne_unfold.
  fold path fileName strategy.
  pose proof (guarded_spec url path fileName (default 1 (downloadNumber options))
                strategy (None, w)) as Hg.
  destruct (axios_get env w url (timeout this)) as [dataStream|cause] eqn:Hget.
  - right. rewrite (try_body_fetched _ _ _ _ _ _ _ _ Hget) in Hg. fold w0 in Hg.
    destruct (transfer_spec url path fileName (default 1 (downloadNumber options))
                strategy dataStream None w0)
      as [(e & s' & Ht) | [(s' & Ht) | (w1 & u & w2 & pb & s' & Hens & Hgen & Ht)]];
      cbn zeta in Ht; rewrite Ht in Hg.
    + left. destruct Hg as [s'' ->]. eauto.
    + left. rewrite Hg. eauto.
    + right. rewrite Hg.
      pose proof (transfer_promise_spec url
                    (FileManager.normalizeDirPath env path +:+ u) dataStream pb s'.2) as Hp.
      destruct (transfer_promise env url _ dataStream pb s'.2) as [p w'].
      cbn [fst] in Hp. subst p. eauto 10.
  - left. rewrite (try_body_fetch_failed _ _ _ _ _ _ _ _ Hget) in Hg.
    rewrite Hg. eauto.
Qed.

(** When every response comes to an end, [downloadOne] resolves. *)
Lemma downloadOne_resolves url (options : DownloadOneOptions) w :
  responses_end env →
  ∃ result w', downloadOne this env url options w = (Resolved result, w').
Proof.
  intros Hend.
  destruct (downloadOne_cases url options w)
    as [(cause & w' & _ & ->) | [(ds & e & w' & _ & ->) |
        (ds & w1 & u & w2 & w' & Hget & _ & _ & ->)]]; eauto.
  destruct (settlement_ends url
              (FileManager.normalizeDirPath env (default "" (path options)) +:+ u) ds)
    as [result ->]; eauto.
Qed.

Lemma downloadOne_not_rejected url (options : DownloadOneOptions) w e :
  (downloadOne this env url options w).1 ≠ Rejected e.
Proof.
  destruct (downloadOne_cases url options w)
    as [(cause & w' & _ & ->) | [(ds & e' & w' & _ & ->) |
        (ds & w1 & u & w2 & w' & _ & _ & _ & ->)]]; try done.
  cbn [fst]. by destruct (settlement _ _ _).
Qed.

End DownloadFacts.

(* ===================================================================== *)
(** * Which calls fetch *)
(* ===================================================================== *)

Section Quiet.
Import Spec.

Lemma quiet_step_refl w : quiet_step w w.
Proof. exists []. by rewrite (right_id_L [] (++)). Qed.

Lemma quiet_step_trans w1 w2 w3 :
  quiet_step w1 w2 → quiet_step w2 w3 → quiet_step w1 w3.
Proof.
  intros (e1 & H1 & F1) (e2 & H2 & F2). exists (e1 ++ e2).
  split; [by rewrite H2, H1, (assoc_L (++))|].
  unfold fetched in *. by rewrite omap_app, F1, F2.
Qed.

Lemma quiet_step_record c w :
  fetched [c] = [] → quiet_step w (record c w).
Proof. intros H. by exists [c]. Qed.

Context {S : Type} `{HasWorld S}.

Lemma quiet_ret {A} (a : A) : quiet (mret a : M S A).
Proof. intros s. apply quiet_step_refl. Qed.

Lemma quiet_throw {A} e : quiet (throw e : M S A).
Proof. intros s. apply quiet_step_refl. Qed.

Lemma quiet_diverge {A} : quiet (diverge : M S A).
Proof. intros s. apply quiet_step_refl. Qed.

Lemma quiet_get : quiet (get : M S S).
Proof. intros s. apply quiet_step_refl. Qed.

Lemma quiet_bind {A B} (m : M S A) (f : A → M S B) :
  quiet m → (∀ a, quiet (f a)) → quiet (m ≫= f).
Proof.
  intros Hm Hf s. specialize (Hm s). unfold mbind, M_bind.
  destruct (m s) as [[a|e|] s']; cbn [snd] in *; [|done..].
  eapply quiet_step_trans; [done | apply Hf].
Qed.

Lemma quiet_try_catch {A} (m : M S A) (h : JsError → M S A) :
  quiet m → (∀ e, quiet (h e)) → quiet (try_catch m h).
Proof.
  intros Hm Hh s. specialize (Hm s). unfold try_catch.
  destruct (m s) as [[a|e|] s']; cbn [snd] in *; [done| |done].
  eapply quiet_step_trans; [done | apply Hh].
Qed.

Lemma quiet_try_finally {A} (m : M S A) (final : S → S) :
  quiet m → (∀ s, world_of (final s) = world_of s) → quiet (try_finally m final).
Proof.
  intros Hm Hf s. specialize (Hm s). unfold try_finally.
  destruct (m s) as [r s']. cbn [snd] in *. by rewrite Hf.
Qed.

Lemma quiet_modify (f : S → S) :
  (∀ s, world_of (f s) = world_of s) → quiet (modify f).
Proof. intros Hf s. unfold modify. cbn [snd]. rewrite Hf. apply quiet_step_refl. Qed.

End Quiet.

Section QuietOps.
Import Spec.
Variable env : Env.

Lemma quiet_on_world {T A} (m : M World A) : quiet m → quiet (on_world (T := T) m).
Proof.
  intros Hm [t w]. specialize (Hm w). unfold on_world.
  by destruct (m w) as [r w'].
Qed.

Lemma quiet_call c : fetched [c] = [] → quiet (call c).
Proof. intros Hc w. by apply quiet_step_record. Qed.

Lemma quiet_call_oracle {A} c (oracle : World → answer A) :
  fetched [c] = [] → quiet (call_oracle c oracle).
Proof. intros Hc w. by apply quiet_step_record. Qed.

Lemma quiet_call_fs_oracle {A} c (oracle : World → answer A * gset string) :
  fetched [c] = [] → quiet (call_fs_oracle c oracle).
Proof.
  intros Hc w. unfold call_fs_oracle. destruct (oracle w) as [r fs'].
  by exists [c].
Qed.

Lemma quiet_on_progressBar {A} (m : M (ProgressBar.t * World) A) :
  quiet m → quiet (Download.on_progressBar m).
Proof.
  intros Hm [[pb|] w]; unfold Download.on_progressBar.
  - specialize (Hm (pb, w)). by destruct (m (pb, w)) as [r [pb' w']].
  - apply quiet_step_refl.
Qed.

Ltac quiet_rule tac :=
  lazymatch goal with
  | |- ∀ _, _ => intro
  | |- quiet (mret _) => apply quiet_ret
  | |- quiet (throw _) => apply quiet_throw
  | |- quiet diverge => apply quiet_diverge
  | |- quiet get => apply quiet_get
  | |- quiet (mbind _ _) => apply quiet_bind
  | |- quiet (try_catch _ _) => apply quiet_try_catch
  | |- quiet (try_finally _ _) => apply quiet_try_finally
  | |- quiet (on_world _) => apply quiet_on_world
  | |- quiet (Download.on_progressBar _) => apply quiet_on_progressBar
  | |- quiet (call _) => apply quiet_call
  | |- quiet (call_oracle _ _) => apply quiet_call_oracle
  | |- quiet (call_fs_oracle _ _) => apply quiet_call_fs_oracle
  | |- quiet (modify _) => apply quiet_modify
  | |- quiet (if ?b then _ else _) => destruct b
  | |- quiet (match ?x with _ => _ end) => destruct x
  | |- quiet _ => tac
  | |- _ => done
  end.

Ltac quiet_tac tac := repeat (quiet_rule tac).

Lemma quiet_existsSync path : quiet (FileManager.existsSync path).
Proof. intros w. by apply quiet_step_record. Qed.

Lemma quiet_counter_loop normalizedPath baseName extension fuel counter :
  quiet (FileManager.counter_loop normalizedPath baseName extension fuel counter).
Proof.
  revert counter. induction fuel as [|fuel IH]; intros counter; cbn [FileManager.counter_loop].
  - apply quiet_diverge.
  - apply quiet_bind; [apply quiet_existsSync|]. intros []; [apply IH | apply quiet_ret].
Qed.

Lemma quiet_DateNow : quiet (DateNow_ env).
Proof. intros w. by apply quiet_step_record. Qed.

Lemma quiet_Math_random : quiet (Math_random_toString36_ env).
Proof. intros w. by apply quiet_step_record. Qed.

Lemma quiet_generateUniqueFilename dirPath fileName strategy :
  quiet (FileManager.generateUniqueFilename env dirPath fileName strategy).
Proof.
  unfold FileManager.generateUniqueFilename.
  apply quiet_bind; [apply quiet_existsSync|]. intros present.
  destruct (negb present); [apply quiet_ret|].
  quiet_tac ltac:(first [ apply quiet_DateNow | apply quiet_Math_random
                        | apply quiet_counter_loop ]).
Qed.

Lemma quiet_ensureDirectoryExists dirPath :
  quiet (FileManager.ensureDirectoryExists env dirPath).
Proof.
  unfold FileManager.ensureDirectoryExists, FileManager.pathCreator_make_dir.
  quiet_tac fail.
Qed.

Lemma quiet_createFileWriteStream filePath :
  quiet (FileManager.createFileWriteStream env filePath).
Proof. unfold FileManager.createFileWriteStream. quiet_tac fail. Qed.

Lemma quiet_this : quiet ProgressBar.this_.
Proof. intros s. apply quiet_step_refl. Qed.

Lemma quiet_assign f : quiet (ProgressBar.assign f).
Proof. intros s. apply quiet_step_refl. Qed.

Lemma quiet_start data barNumber : quiet (ProgressBar.start env data barNumber).
Proof.
  unfold ProgressBar.start, ProgressBar.content_length_header.
  quiet_tac ltac:(first [ apply quiet_this | apply quiet_assign
                        | apply quiet_DateNow ]).
Qed.

Ltac quiet_ops :=
  first [ apply quiet_this | apply quiet_assign | apply quiet_DateNow
        | apply quiet_Math_random | apply quiet_counter_loop
        | apply quiet_existsSync | apply quiet_generateUniqueFilename
        | apply quiet_ensureDirectoryExists | apply quiet_createFileWriteStream
        | apply quiet_start ].

Lemma quiet_update chunk : quiet (ProgressBar.update env chunk).
Proof. unfold ProgressBar.update, console_error. quiet_tac quiet_ops. Qed.

Lemma quiet_stop : quiet (ProgressBar.stop env).
Proof. unfold ProgressBar.stop, console_error. quiet_tac quiet_ops. Qed.

Lemma quiet_handler url filePath ev : quiet (Download.handler env url filePath ev).
Proof.
  unfold Download.handler, consoleMessages_succes, consoleMessages_error.
  quiet_tac ltac:(first [ apply quiet_update | apply quiet_stop ]).
Qed.

Lemma quiet_emit url filePath evs settled :
  quiet (Download.emit env url filePath evs settled).
Proof.
  revert settled. induction evs as [|ev evs IH]; intros settled; cbn [Download.emit].
  - apply quiet_ret.
  - apply quiet_bind; [apply quiet_handler | intros; apply IH].
Qed.

Lemma quiet_catch_block url e : quiet (Download.catch_block env url e).
Proof.
  unfold Download.catch_block, consoleMessages_error.
  quiet_tac ltac:(apply quiet_stop).
Qed.

Lemma quiet_transfer url path fileName downloadNumber strategy dataStream :
  quiet (Download.transfer env url path fileName downloadNumber strategy dataStream).
Proof.
  unfold Download.transfer, consoleMessages_error. quiet_tac quiet_ops.
Qed.

End QuietOps.

Section Fetched.
Import Download Spec.
Variable this : Download.t.
Variable env : Env.

Lemma fetched_snoc cs url timeout :
  fetched (cs ++ [AxiosGet url timeout]) = fetched cs ++ [url].
Proof. unfold fetched. by rewrite omap_app. Qed.

Lemma quiet_step_fetched w w' : quiet_step w w' → fetched (calls w') = fetched (calls w).
Proof.
  intros (extra & -> & Hextra). unfold fetched in *.
  by rewrite omap_app, Hextra, (right_id_L [] (++)).
Qed.

(** The guarded part fetches its URL, once. *)
Lemma guarded_fetched url path fileName downloadNumber strategy pb0 w :
  fetched (calls (guarded this env url path fileName downloadNumber strategy (pb0, w)).2.2)
  = fetched (calls w) ++ [url].
Proof.
  assert (fetched (calls (try_body this env url path fileName downloadNumber
                            strategy (pb0, w)).2.2) = fetched (calls w) ++ [url])
    as Hbody.
  { destruct (axios_get env w url (timeout this)) as [dataStream|cause] eqn:Hget.
    - rewrite (try_body_fetched _ _ _ _ _ _ _ _ _ _ Hget).
      pose proof (quiet_transfer env url path fileName downloadNumber strategy
                    dataStream (pb0, record (AxiosGet url (timeout this)) w)) as Hq.
      apply quiet_step_fetched in Hq. unfold world_of, pair_HasWorld in Hq.
      rewrite Hq. apply fetched_snoc.
    - rewrite (try_body_fetch_failed _ _ _ _ _ _ _ _ _ _ Hget). cbn [snd record calls].
      unfold fetched. rewrite !omap_app. cbn. by rewrite (right_id_L [] (++)). }
  unfold guarded, try_catch.
  destruct (try_body this env url path fileName downloadNumber strategy (pb0, w))
    as [[r|e|] s1]; [done| |done].
  rewrite <- Hbody. apply (quiet_step_fetched _ _ (quiet_catch_block env url e s1)).
Qed.

Lemma downloadOne_fetched url (options : DownloadOneOptions) w :
  fetched (calls (downloadOne this env url options w).2) = fetched (calls w) ++ [url].
Proof.
  rewrite downloadOne_unfold.
  pose proof (guarded_fetched url (default "" (path options))
                (default "file" (fileName options)) (default 1 (downloadNumber options))
                (default (fileNamingStrategy this) (optFileNamingStrategy options))
                None w) as Hg.
  destruct (guarded _ _ _ _ _ _ _ _) as [[[result|filePath dataStream pb]|e|] [pb' w1]];
    cbn [snd] in *; try done.
  rewrite <- Hg. unfold transfer_promise.
  pose proof (quiet_emit env url filePath (events dataStream) None (pb, w1)) as He.
  apply quiet_step_fetched in He. unfold world_of, pair_HasWorld in He.
  by destruct (emit env url filePath (events dataStream) None (pb, w1))
    as [[[r|]|e|] [pb2 w2]].
Qed.

End Fetched.

(* ===================================================================== *)
(** * Facts about the batch loop *)
(* ===================================================================== *)

Section BatchFacts.
Variable this : Download.t.
Variable env : Env.
Import Download Spec.

(** One round of the loop on a request object. *)
Lemma for_loop_object i request rest results w :
  for_loop this env i (object request :: rest) (results, w)
  = match downloadOne this env (url request) (forwarded this i request) w with
    | (Resolved result, w1) => for_loop this env (S i) rest (results ++ [result], w1)
    | (Rejected e, w1) => (Throw e, (results, w1))
    | (Pending, w1) => (Diverge, (results, w1))
    end.
Proof.
  cbn [for_loop destructure]. unfold_M. unfold await. cbn [fst snd].
  change (downloadOne this env (url request)
            (object {| path := Some (default "" (path (options request)));
                       fileName := Some (default "file" (fileName (options request)));
                       downloadNumber := Some (Z.of_nat i + 1);
                       optFileNamingStrategy := None |}) w)
    with (downloadOne this env (url request) (forwarded this i request) w).
  by destruct (downloadOne this env (url request) (forwarded this i request) w)
    as [[result|e|] w1].
Qed.

(** One round of the loop on an argument that is not an object. *)
Lemma for_loop_fault i (fault : jsarg DownloadManyOptions) rest results w :
  fault = undefined ∨ fault = null →
  ∃ e, for_loop this env i (fault :: rest) (results, w) = (Throw e, (results, w)).
Proof. intros [-> | ->]; cbn [for_loop destructure]; unfold_M; eauto. Qed.

(** The loop runs a batch and goes on with what follows it. *)
Lemma for_loop_batch requests i w rs w' :
  batch this env i requests w rs w' →
  ∀ results rest,
    for_loop this env i ((object <$> requests) ++ rest) (results, w)
    = for_loop this env (i + length requests) rest (results ++ rs, w').
Proof.
  induction 1 as [i w | i request requests w result w1 rs w2 Hone _ IH];
    intros results rest.
  - cbn. by rewrite Nat.add_0_r, (right_id_L [] (++)).
  - rewrite fmap_cons. cbn [app]. rewrite for_loop_object, Hone, IH.
    cbn [length]. rewrite <- (assoc_L (++)). cbn [app].
    by replace (S i + length requests)%nat with (i + S (length requests))%nat by lia.
Qed.

(** A loop over request objects that completes has run them as a batch. *)
Lemma for_loop_completes requests i results w results' w' :
  for_loop this env i (object <$> requests) (results, w) = (Normal tt, (results', w')) →
  ∃ rs, results' = results ++ rs ∧ batch this env i requests w rs w'.
Proof.
  revert i results w. induction requests as [|request requests IH];
    intros i results w Hloop.
  - cbn in Hloop. unfold_M. simplify_eq. exists [].
    split; [by rewrite (right_id_L [] (++)) | constructor].
  - rewrite fmap_cons, for_loop_object in Hloop.
    destruct (downloadOne this env (url request) (forwarded this i request) w)
      as [[result|e|] w1] eqn:Hone; [|done..].
    apply IH in Hloop as (rs & -> & Hbatch).
    exists (result :: rs). split; [by rewrite <- (assoc_L (++)) | by econstructor].
Qed.

Lemma batch_length requests i w rs w' :
  batch this env i requests w rs w' → length rs = length requests.
Proof. induction 1; cbn; congruence. Qed.

(** When every response comes to an end, every batch runs to its end. *)
Lemma batch_exists requests i w :
  responses_end env → ∃ rs w', batch this env i requests w rs w'.
Proof.
  intros Hend. revert i w. induction requests as [|request requests IH]; intros i w.
  - eexists _, _. constructor.
  - destruct (downloadOne_resolves this env (url request) (forwarded this i request) w Hend)
      as (result & w1 & Hone).
    destruct (IH (S i) w1) as (rs & w2 & Hbatch).
    eexists _, _. by econstructor.
Qed.

(** [downloadMany] in terms of its loop. *)
Lemma downloadMany_unfold args w :
  downloadMany this env args w
  = match for_loop this env 0 args ([], record (starting (length args)) w) with
    | (Normal _, (results, w1)) =>
        (Resolved results, record (summary results (length args)) w1)
    | (Throw e, (results, w1)) => (Resolved results, record (batch_error e) w1)
    | (Diverge, (results, w1)) => (Pending, w1)
    end.
Proof.
  unfold downloadMany, starting, summary, batch_error. unfold_M. cbn [fst snd].
  by destruct (for_loop this env 0 args _) as [[[]|e|] [results w1]].
Qed.

(** The loop does not look at the display number or the naming strategy a
    request carries. *)
Lemma for_loop_same_forwarded requests requests' :
  Forall2 same_forwarded_fields requests requests' →
  ∀ i s, for_loop this env i (object <$> requests) s
         = for_loop this env i (object <$> requests') s.
Proof.
  induction 1 as [|a b requests requests' (Hurl & Hpath & Hname) _ IH];
    intros i [results w]; [done|].
  rewrite !fmap_cons, !for_loop_object.
  replace (forwarded this i b) with (forwarded this i a)
    by (unfold forwarded; by rewrite Hpath, Hname).
  rewrite <- Hurl.
  destruct (downloadOne this env (url a) (forwarded this i a) w) as [[result|e|] w1];
    [apply IH | done | done].
Qed.

Lemma batch_fetched requests i w rs w' :
  batch this env i requests w rs w' →
  fetched (calls w') = fetched (calls w) ++ (url <$> requests).
Proof.
  induction 1 as [i w | i request requests w result w1 rs w2 Hone _ IH].
  - by rewrite fmap_nil, (right_id_L [] (++)).
  - rewrite IH. pose proof (downloadOne_fetched this env (url request) (forwarded this i request) w) as H1.
    rewrite Hone in H1. cbn [snd] in H1. rewrite H1, fmap_cons, <- (assoc_L (++)). done.
Qed.

End BatchFacts.

(* ===================================================================== *)
(** * The file manager: blank paths, fresh names, collisions *)
(* ===================================================================== *)

Section FileManagerClaims.
Variable env : Env.
Import FileManager.

(** C9.  For a directory path that consists only of white space (the empty
    string included), [ensureDirectoryExists] returns [true] without calling
    anything, so no directory creation is attempted, and [normalizeDirPath]
    returns the empty string.  For any other path, [normalizeDirPath] trims
    the path and appends the platform separator exactly when the trimmed
    path does not already end with it; the result ends with the separator. *)
Theorem blank_and_visible_paths dirPath w :
  (all_whitespace dirPath = true →
     ensureDirectoryExists env dirPath w = (Normal true, w) ∧
     normalizeDirPath env dirPath = "")
  ∧ (all_whitespace dirPath = false →
     trim dirPath ≠ "" ∧
     (endsWith (trim dirPath) (path_sep (platform env)) = true →
        normalizeDirPath env dirPath = trim dirPath) ∧
     (endsWith (trim dirPath) (path_sep (platform env)) = false →
        normalizeDirPath env dirPath = trim dirPath +:+ path_sep (platform env)) ∧
     endsWith (normalizeDirPath env dirPath) (path_sep (platform env)) = true).
Proof.
  split.
  - intros Hblank%trim_blank. unfold ensureDirectoryExists, normalizeDirPath.
    unfold_M. by rewrite !bool_decide_true.
  - intros Hvisible.
    assert (trim dirPath ≠ "") as Hne.
    { intros Htrim%trim_blank. congruence. }
    unfold normalizeDirPath. rewrite bool_decide_false by done.
    split; [done|].
    destruct (endsWith (trim dirPath) (path_sep (platform env))) eqn:Hends;
      repeat split; try done.
    apply endsWith_app.
Qed.

(** C3.  When the directory already holds a file with the desired name,
    [generateUniqueFilename] returns, under every strategy (timestamp,
    counter, random, an unknown one, none given), a name different from the
    desired one; under the counter strategy the name is [base-(n)ext] for the
    least [n >= 1] such that no file of that name is in the directory. *)
Theorem generateUniqueFilename_collision dirPath fileName strategy w :
  normalizeDirPath env dirPath +:+ fileName ∈ fs w →
  ∃ uniqueName w',
    generateUniqueFilename env dirPath fileName strategy w = (Normal uniqueName, w') ∧
    fs w' = fs w ∧
    uniqueName ≠ fileName ∧
    (strategy = Some "counter" →
     ∃ n, (1 ≤ n)%nat ∧
       uniqueName = counter_name (parse_baseName fileName) (parse_extension fileName) n ∧
       (normalizeDirPath env dirPath +:+ uniqueName ∉ fs w) ∧
       ∀ m, (1 ≤ m < n)%nat →
         normalizeDirPath env dirPath +:+
           counter_name (parse_baseName fileName) (parse_extension fileName) m ∈ fs w).
Proof. apply generateUniqueFilename_present. Qed.

End FileManagerClaims.

Lemma blank_and_visible_paths_witness :
  (FileManager.ensureDirectoryExists Sample.env "   " Sample.world
   = (Normal true, Sample.world) ∧
   FileManager.normalizeDirPath Sample.env "   " = "")
  ∧ FileManager.normalizeDirPath Sample.env " out " = "out/".
Proof.
  split.
  - apply (proj1 (blank_and_visible_paths Sample.env "   " Sample.world)). reflexivity.
  - apply (proj2 (blank_and_visible_paths Sample.env " out " Sample.world)); reflexivity.
Defined.

Lemma generateUniqueFilename_collision_witness :
  ∃ w', FileManager.generateUniqueFilename Sample.env "out" "a.txt" (Some "counter")
          Sample.world = (Normal "a-(2).txt", w').
Proof.
  destruct (generateUniqueFilename_collision Sample.env "out" "a.txt" (Some "counter")
              Sample.world) as (uniqueName & w' & Hrun & _).
  - vm_compute. reflexivity.
  - exists w'. rewrite Hrun. f_equal.
    vm_compute in Hrun. by injection Hrun as <- _.
Defined.

(* ===================================================================== *)
(** * The progress tracker: stopping *)
(* ===================================================================== *)

Section ProgressBarClaims.
Variable env : Env.
Import ProgressBar.

(** C7.  [stop] on an inactive tracker is a no-op: it completes normally,
    changes no field and calls nothing.  [stop] on an active tracker
    completes normally and clears the active flag, also when stopping the
    render surface throws (the error goes to the console).  So a second
    [stop] after any [stop] changes nothing. *)
Theorem stop_idempotent this w :
  (isActive this = false → stop env (this, w) = (Normal tt, (this, w)))
  ∧ (isActive this = true →
     ∃ w', stop env (this, w) = (Normal tt, (set_isActive false this, w')))
  ∧ (isActive this = true →
     ∀ e, SingleBar_stop env w = Throws e →
       stop env (this, w)
       = (Normal tt,
          (set_isActive false this,
           record (ConsoleError ("Error stopping progress bar: " +:+ error_message e))
             (record BarStop w))))
  ∧ stop env (stop env (this, w)).2 = (Normal tt, (stop env (this, w)).2).
Proof.
  split; [apply stop_inactive|]. split; [apply stop_active|]. split.
  - intros Hactive e He. unfold stop, this_. unfold_M. cbn. by rewrite Hactive, He.
  - destruct (stop_normal env (this, w)) as ([this' w'] & -> & Hoff).
    by apply stop_inactive.
Qed.

End ProgressBarClaims.

Lemma stop_idempotent_witness :
  ProgressBar.stop Sample.env_stop_fails (Sample.tracker, Sample.world)
  = (Normal tt,
     (ProgressBar.set_isActive false Sample.tracker,
      record (ConsoleError "Error stopping progress bar: terminal is gone")
        (record BarStop Sample.world))).
Proof.
  apply (proj1 (proj2 (proj2 (stop_idempotent Sample.env_stop_fails Sample.tracker
                                Sample.world)))
           eq_refl (Error_ "terminal is gone")).
  reflexivity.
Defined.

(* ===================================================================== *)
(** * The transfer engine *)
(* ===================================================================== *)

Section DownloadOneClaims.
Variable this : Download.t.
Variable env : Env.
Import Download Spec.

(** A promise that resolved with a success resolved on ['end'], with the
    path the handlers were registered for. *)
Lemma settlement_success url filePath evs filePath' :
  settlement url filePath evs = Some (Success filePath') → filePath' = filePath.
Proof.
  induction evs as [|ev evs IH]; [done|]. cbn [settlement].
  destruct ev; cbn [resolution]; [done|..]; congruence.
Qed.



(** C4.  When opening the GET stream fails, [downloadOne] resolves to a
    failure whose error is a [FetchError] with the URL and the original
    cause, and it returns at once: the only calls it has made are the GET
    itself and the error log, so no directory was created, no name resolved,
    no sink opened and no tracker started. *)
Theorem downloadOne_fetch_failure url (options : DownloadOneOptions) w cause :
  axios_get env w url (timeout this) = Throws cause →
  let error := FetchError ("Failed to fetch data from URL: " +:+ url) url cause in
  downloadOne this env url options w
  = (Resolved (Failure error),
     {| fs := fs w;
        calls := calls w ++
          [AxiosGet url (timeout this);
           ConsoleMessage LogError
             (error_message error +:+ LF +:+ "Error details: " +:+
              or_unknown_error (Some (error_message cause)))] |})
  ∧ error_code error = Some "FETCH_ERROR"
  ∧ error_url error = Some url
  ∧ error_originalError error = Some cause.
Proof.
  intros Hget error. split; [|done].
  pose proof (guarded_spec this env url (default "" (path options))
                (default "file" (fileName options)) (default 1 (downloadNumber options))
                (default (fileNamingStrategy this) (optFileNamingStrategy options))
                (None, w)) as Hg.
  rewrite (try_body_fetch_failed _ _ _ _ _ _ _ _ _ _ Hget) in Hg.
  rewrite downloadOne_unfold, Hg. unfold record. cbn [snd fs calls].
  by rewrite <- (assoc_L (++)).
Qed.

(** C5.  When no file of the desired name exists under the directory, the
    resolver returns the desired name unchanged (and only looked the path
    up); so when the destination does not exist at the time the name is
    resolved, a successful [downloadOne] carries as [filePath] the normalized
    directory followed by the original file name. *)
Theorem downloadOne_keeps_fresh_name :
  (∀ dirPath fileName strategy w,
     FileManager.normalizeDirPath env dirPath +:+ fileName ∉ fs w →
     FileManager.generateUniqueFilename env dirPath fileName strategy w
     = (Normal fileName,
        record (ExistsSync (FileManager.normalizeDirPath env dirPath +:+ fileName)) w))
  ∧ (∀ url options w filePath w',
       let path := default "" (path options) in
       let fileName := default "file" (fileName options) in
       FileManager.normalizeDirPath env path +:+ fileName
         ∉ fs (world_at_resolution this env url path w) →
       downloadOne this env url options w = (Resolved (Success filePath), w') →
       filePath = FileManager.normalizeDirPath env path +:+ fileName).
Proof.
  split; [apply generateUniqueFilename_absent|].
  intros url options w filePath w' path fileName Hfresh Hrun.
  destruct (downloadOne_cases this env url options w)
    as [(cause & w1 & _ & Heq) | [(ds & e & w1 & _ & Heq) |
        (ds & w1 & u & w2 & w3 & _ & Hens & Hgen & Heq)]];
    rewrite Heq in Hrun; [done | done |].
  fold path fileName in Hens, Hgen, Hrun.
  unfold world_at_resolution in Hfresh. rewrite Hens in Hfresh. cbn [snd] in Hfresh.
  rewrite generateUniqueFilename_absent in Hgen
    by (by rewrite normalizeDirPath_idemp).
  injection Hgen as <- _.
  destruct (settlement url (FileManager.normalizeDirPath env path +:+ fileName)
              (events ds)) as [[fp|e]|] eqn:Hs; cbn [promise_of] in Hrun; [|done..].
  apply settlement_success in Hs. congruence.
Qed.

End DownloadOneClaims.



Lemma downloadOne_fetch_failure_witness :
  (Download.downloadOne Sample.downloader Sample.env "http://unreachable/"
     (Sample.options "out" "a.txt") Sample.world).1
  = Resolved (Download.Failure
      (FetchError "Failed to fetch data from URL: http://unreachable/"
         "http://unreachable/" (Error_ "getaddrinfo ENOTFOUND unreachable"))).
Proof.
  rewrite (proj1 (downloadOne_fetch_failure Sample.downloader Sample.env
                    "http://unreachable/" (Sample.options "out" "a.txt") Sample.world
                    (Error_ "getaddrinfo ENOTFOUND unreachable") eq_refl)).
  reflexivity.
Defined.

Lemma downloadOne_keeps_fresh_name_witness :
  ("out/b.txt" ∉ fs (Spec.world_at_resolution Sample.downloader Sample.env
                       "http://example.com/b" "out" Sample.world))
  ∧ (Download.downloadOne Sample.downloader Sample.env "http://example.com/b"
       (Sample.options "out" "b.txt") Sample.world).1
    = Resolved (Download.Success "out/b.txt")
  ∧ "out/b.txt" = FileManager.normalizeDirPath Sample.env "out" +:+ "b.txt".
Proof.
  assert ("out/b.txt" ∉ fs (Spec.world_at_resolution Sample.downloader Sample.env
                              "http://example.com/b" "out" Sample.world)) as Hfresh
    by (vm_compute; intros [=]).
  assert ((Download.downloadOne Sample.downloader Sample.env "http://example.com/b"
             (Sample.options "out" "b.txt") Sample.world).1
          = Resolved (Download.Success "out/b.txt")) as Hrun
    by (vm_compute; reflexivity).
  split; [done|]. split; [done|].
  eapply (proj2 (downloadOne_keeps_fresh_name Sample.downloader Sample.env)
            "http://example.com/b" (Sample.options "out" "b.txt") Sample.world
            "out/b.txt" _ Hfresh).
  rewrite <- Hrun. apply surjective_pairing.
Defined.

(* ===================================================================== *)
(** * The batch orchestrator *)
(* ===================================================================== *)

Section DownloadManyClaims.
Variable this : Download.t.
Variable env : Env.
Import Download Spec.

(** Over request objects the loop throws nothing: [downloadOne] does not
    reject. *)
Lemma for_loop_objects_no_throw requests i s e s' :
  for_loop this env i (object <$> requests) s ≠ (Throw e, s').
Proof.
  revert i s. induction requests as [|request requests IH]; intros i [results w].
  - done.
  - rewrite fmap_cons, for_loop_object.
    pose proof (downloadOne_not_rejected this env (url request)
                  (forwarded this i request) w) as Hnr.
    destruct (downloadOne this env (url request) (forwarded this i request) w)
      as [[result|e'|] w1]; [apply IH | by destruct (Hnr e') | done].
Qed.

(** What [downloadMany] resolves with on request objects are the results of
    the whole batch. *)
Lemma downloadMany_resolved requests w results w' :
  downloadMany this env (object <$> requests) w = (Resolved results, w') →
  ∃ w1, batch this env 0 requests (record (starting (length requests)) w) results w1
        ∧ w' = record (summary results (length requests)) w1.
Proof.
  rewrite downloadMany_unfold, length_fmap.
  destruct (for_loop this env 0 (object <$> requests) _)
    as [[[]|e|] [results1 w1]] eqn:Hloop.
  - apply for_loop_completes in Hloop as (rs & -> & Hbatch).
    intros [= <- <-]. eauto.
  - by apply for_loop_objects_no_throw in Hloop.
  - done.
Qed.

(** C2.  For every sequence of N request objects, [downloadMany] returns
    exactly N results, one per request and in the order of the requests: the
    results are those of running the requests one after the other through
    [downloadOne], whatever number of them fail, and every request is
    attempted, its URL being fetched once, in order.  No list it resolves
    with is shorter or longer than N; and it does resolve when every response
    comes to an end (a transfer that never settles is not a failed
    transfer). *)
Theorem downloadMany_one_result_per_request requests w :
  (∀ results w',
     downloadMany this env (object <$> requests) w = (Resolved results, w') →
     length results = length requests)
  ∧ (∀ e, (downloadMany this env (object <$> requests) w).1 ≠ Rejected e)
  ∧ (responses_end env →
     ∃ results w1,
       downloadMany this env (object <$> requests) w
       = (Resolved results, record (summary results (length requests)) w1) ∧
       length results = length requests ∧
       batch this env 0 requests (record (starting (length requests)) w) results w1 ∧
       fetched (calls w1) = fetched (calls w) ++ (url <$> requests)).
Proof.
  split; [|split].
  { intros results w' (w1 & Hbatch & _)%downloadMany_resolved.
    by eapply batch_length. }
  { intros e. rewrite downloadMany_unfold.
    by destruct (for_loop this env 0 _ _) as [[[]|e'|] [results w1]]. }
  intros Hend.
  destruct (batch_exists this env requests 0 (record (starting (length requests)) w) Hend)
    as (results & w1 & Hbatch).
  exists results, w1. split; [|split; [|split]].
  - rewrite downloadMany_unfold, length_fmap.
    pose proof (for_loop_batch this env _ _ _ _ _ Hbatch [] []) as Hloop.
    rewrite (right_id_L [] (++)) in Hloop. rewrite Hloop. done.
  - by eapply batch_length.
  - done.
  - rewrite (batch_fetched this env _ _ _ _ _ Hbatch). unfold record, starting.
    cbn [calls]. unfold fetched. rewrite omap_app. cbn [omap list_omap].
    by rewrite (right_id_L [] (++)).
Qed.

(** C6.  [downloadMany] does not reject.  When an exception arises in its
    loop, it resolves with the results accumulated up to that point, after
    logging the error: when the requests before a faulty argument (a hole or
    a null where a request object should be) have produced their results,
    exactly these results are returned, none is lost and the arguments after
    the fault are not run. *)
Theorem downloadMany_returns_accumulated :
  (∀ args w e, (downloadMany this env args w).1 ≠ Rejected e)
  ∧ (∀ args w e results w1,
       for_loop this env 0 args ([], record (starting (length args)) w)
         = (Throw e, (results, w1)) →
       downloadMany this env args w = (Resolved results, record (batch_error e) w1))
  ∧ (∀ before fault after w results w1,
       fault = undefined ∨ fault = null →
       batch this env 0 before
         (record (starting (length ((object <$> before) ++ fault :: after))) w)
         results w1 →
       ∃ e, downloadMany this env ((object <$> before) ++ fault :: after) w
            = (Resolved results, record (batch_error e) w1)).
Proof.
  split; [|split].
  - intros args w e. rewrite downloadMany_unfold.
    by destruct (for_loop this env 0 args _) as [[[]|e'|] [results w1]].
  - intros args w e results w1 Hloop. by rewrite downloadMany_unfold, Hloop.
  - intros before fault after w results w1 Hfault Hbatch.
    rewrite downloadMany_unfold.
    rewrite (for_loop_batch this env _ _ _ _ _ Hbatch [] (fault :: after)).
    destruct (for_loop_fault this env (0 + length before) fault after ([] ++ results) w1
                Hfault) as [e ->].
    by exists e.
Qed.

(** Over request objects the loop is the run with the forwarded options. *)
Lemma for_loop_forwarded_run requests i results w :
  for_loop this env i (object <$> requests) (results, w)
  = (if (Trace.forwarded_run this env i requests (results, w)).1
     then Normal tt else Diverge,
     (Trace.forwarded_run this env i requests (results, w)).2).
Proof.
  revert i results w. induction requests as [|request requests IH];
    intros i results w; [done|].
  rewrite fmap_cons, for_loop_object. cbn [Trace.forwarded_run fst snd].
  pose proof (downloadOne_not_rejected this env (url request)
                (forwarded this i request) w) as Hnr.
  destruct (downloadOne this env (url request) (forwarded this i request) w)
    as [[result|e|] w1]; [apply IH | by destruct (Hnr e) | done].
Qed.

(** C10.  [downloadMany] forwards only [url], [path] and [fileName] of a
    request, with its own display number.  Its run on a list of request
    objects is this and nothing else: the line that opens the batch is
    logged, then each request goes through [downloadOne] with its [url],
    [path] and [fileName], its 1-based position as display number and the
    naming strategy of the instance, one after the other
    ([Trace.forwarded_run]); when all have resolved, their results are
    returned in order after the summary line, and the batch stays unsettled
    exactly when one of these transfers does.  So two argument lists that
    agree on the three fields run alike, whatever [fileNamingStrategy] and
    [downloadNumber] the requests carry; what is returned are the results of
    the batch; and when every response comes to an end the batch is run to
    its end. *)
Theorem downloadMany_forwards_three_fields requests requests' w :
  Forall2 same_forwarded_fields requests requests' →
  downloadMany this env (object <$> requests) w
  = downloadMany this env (object <$> requests') w
  ∧ (let run := Trace.forwarded_run this env 0 requests
                  ([], record (starting (length requests)) w) in
     downloadMany this env (object <$> requests) w
     = if run.1
       then (Resolved run.2.1, record (summary run.2.1 (length requests)) run.2.2)
       else (Pending, run.2.2))
  ∧ (∀ results w',
       downloadMany this env (object <$> requests) w = (Resolved results, w') →
       ∃ w1, batch this env 0 requests (record (starting (length requests)) w) results w1
             ∧ w' = record (summary results (length requests)) w1)
  ∧ (responses_end env →
     ∃ results w1,
       batch this env 0 requests (record (starting (length requests)) w) results w1
       ∧ downloadMany this env (object <$> requests) w
         = (Resolved results, record (summary results (length requests)) w1)).
Proof.
  intros Hsame. split; [|split; [|split]].
  - rewrite !downloadMany_unfold, !length_fmap, (Forall2_length _ _ _ Hsame).
    by rewrite (for_loop_same_forwarded this env _ _ Hsame).
  - cbv zeta. rewrite downloadMany_unfold, length_fmap, for_loop_forwarded_run.
    destruct (Trace.forwarded_run this env 0 requests _) as [[] [results w1]]; done.
  - intros results w'. apply downloadMany_resolved.
  - intros Hend.
    destruct (batch_exists this env requests 0 (record (starting (length requests)) w)
                Hend) as (results & w1 & Hbatch).
    exists results, w1. split; [done|].
    rewrite downloadMany_unfold, length_fmap.
    pose proof (for_loop_batch this env _ _ _ _ _ Hbatch [] []) as Hloop.
    rewrite (right_id_L [] (++)) in Hloop. by rewrite Hloop.
Qed.

End DownloadManyClaims.

(** The sample environment only hands out the sample response, which ends. *)
Lemma sample_responses_end : Spec.responses_end Sample.env.
Proof.
  intros w url timeout data. cbn [axios_get Sample.env].
  case_bool_decide; [done|]. by intros [= <-].
Defined.

(** A pair is given by its components. *)
Lemma pair_of_components {A B C} (p : A * (B * C)) a b :
  p.1 = a → p.2.1 = b → p = (a, (b, p.2.2)).
Proof. destruct p as [? [? ?]]. cbn. by intros -> ->. Defined.

Lemma downloadMany_one_result_per_request_witness :
  ∃ results w1,
    Download.downloadMany Sample.downloader Sample.env
      (object <$> [Sample.request "http://example.com/a" "out" "a.txt";
                   Sample.request "http://unreachable/" "out" "b.txt";
                   Sample.request "http://example.com/a" "out" "a.txt"])
      Sample.world
    = (Resolved results, record (Spec.summary results 3) w1)
    ∧ length results = 3%nat.
Proof.
  destruct (proj2 (proj2 (downloadMany_one_result_per_request Sample.downloader
                            Sample.env
                            [Sample.request "http://example.com/a" "out" "a.txt";
                             Sample.request "http://unreachable/" "out" "b.txt";
                             Sample.request "http://example.com/a" "out" "a.txt"]
                            Sample.world)) sample_responses_end)
    as (results & w1 & Hrun & Hlen & _).
  exists results, w1. split; [exact Hrun | exact Hlen].
Defined.

Lemma downloadMany_returns_accumulated_witness :
  (Download.downloadMany Sample.downloader Sample.env
     [object (Sample.request "http://example.com/a" "out" "a.txt");
      object (Sample.request "http://unreachable/" "out" "b.txt");
      null;
      object (Sample.request "http://example.com/a" "out" "c.txt")]
     Sample.world).1
  = Resolved
      [Download.Success "out/a-(2).txt";
       Download.Failure
         (FetchError "Failed to fetch data from URL: http://unreachable/"
            "http://unreachable/" (Error_ "getaddrinfo ENOTFOUND unreachable"))].
Proof.
  set (before := [Sample.request "http://example.com/a" "out" "a.txt";
                  Sample.request "http://unreachable/" "out" "b.txt"]).
  set (after := [object (Sample.request "http://example.com/a" "out" "c.txt")]).
  set (results := [Download.Success "out/a-(2).txt";
                   Download.Failure
                     (FetchError "Failed to fetch data from URL: http://unreachable/"
                        "http://unreachable/"
                        (Error_ "getaddrinfo ENOTFOUND unreachable"))]).
  set (w0 := record (Spec.starting (length ((object <$> before) ++ null :: after)))
               Sample.world).
  assert (Download.for_loop Sample.downloader Sample.env 0 (object <$> before) ([], w0)
          = (Normal tt,
             (results,
              (Download.for_loop Sample.downloader Sample.env 0 (object <$> before)
                 ([], w0)).2.2))) as Hloop
    by (apply pair_of_components; vm_compute; reflexivity).
  apply for_loop_completes in Hloop as (rs & Hrs & Hbatch).
  cbn [app] in Hrs. subst rs.
  destruct (proj2 (proj2 (downloadMany_returns_accumulated Sample.downloader Sample.env))
              before null after Sample.world results _ (or_intror eq_refl) Hbatch)
    as [e Hrun].
  change ((Download.downloadMany Sample.downloader Sample.env
             ((object <$> before) ++ null :: after) Sample.world).1
          = Resolved results).
  by rewrite Hrun.
Defined.

Lemma downloadMany_forwards_three_fields_witness :
  let run := Download.downloadMany Sample.downloader Sample.env
               (object <$> [Sample.request "http://example.com/a" "out" "a.txt";
                            Sample.request "http://unreachable/" "out" "b.txt";
                            Sample.request "http://example.com/c" "out" "a.txt"])
               Sample.world in
  run = Download.downloadMany Sample.downloader Sample.env
          (object <$> [Sample.plain_request "http://example.com/a" "out" "a.txt";
                       Sample.plain_request "http://unreachable/" "out" "b.txt";
                       Sample.plain_request "http://example.com/c" "out" "a.txt"])
          Sample.world
  ∧ run.1 = Resolved
              [Download.Success "out/a-(2).txt";
               Download.Failure
                 (FetchError "Failed to fetch data from URL: http://unreachable/"
                    "http://unreachable/" (Error_ "getaddrinfo ENOTFOUND unreachable"));
               Download.Success "out/a-(3).txt"]
  ∧ omap (λ c, if c is BarStart _ _ i _ _ then Some i else None) (calls run.2)
    = [1; 3].
Proof.
  destruct (downloadMany_forwards_three_fields Sample.downloader Sample.env
              [Sample.request "http://example.com/a" "out" "a.txt";
               Sample.request "http://unreachable/" "out" "b.txt";
               Sample.request "http://example.com/c" "out" "a.txt"]
              [Sample.plain_request "http://example.com/a" "out" "a.txt";
               Sample.plain_request "http://unreachable/" "out" "b.txt";
               Sample.plain_request "http://example.com/c" "out" "a.txt"]
              Sample.world) as (Hsame & Hrun & _).
  - repeat constructor.
  - cbv zeta. split; [exact Hsame|]. rewrite Hrun. vm_compute. by split.
Defined.

(* ===================================================================== *)
(** * The progress tracker: the estimated time *)
(* ===================================================================== *)

Section EtaFacts.
Import ProgressBar Spec.

Lemma Qfloor_unit (x : Q) : (0 <= x)%Q → (x < 1)%Q → Qfloor x = 0.
Proof.
  intros H0 H1.
  pose proof (Qfloor_le x) as Hle. pose proof (Qlt_floor x) as Hlt.
  assert ((inject_Z (Qfloor x) < 1)%Q) as Hup by (eapply Qle_lt_trans; eauto).
  assert ((0 < inject_Z (Qfloor x + 1))%Q) as Hlow by (eapply Qle_lt_trans; eauto).
  change 1%Q with (inject_Z 1) in Hup. change 0%Q with (inject_Z 0) in Hlow.
  rewrite <- Zlt_Qlt in Hup, Hlow. lia.
Qed.

(** Fewer than 5243 bytes are 0.00 megabytes. *)
Lemma toFixed2_small (n : Z) :
  0 ≤ n ≤ 5242 →
  toFixed2 (div (of_Z n) (of_Z (1024 * 1024))) = "0.00".
Proof.
  intros Hn. unfold div, of_Z.
  change (is_zero (inject_Z (1024 * 1024))) with false. cbv iota.
  unfold toFixed2. cbv zeta.
  assert ((0 <= inject_Z n)%Q) as H0
    by (change 0%Q with (inject_Z 0); rewrite <- Zle_Qle; lia).
  assert ((inject_Z n <= inject_Z 5242)%Q) as H1 by (rewrite <- Zle_Qle; lia).
  set (q := Qred (inject_Z n / inject_Z (1024 * 1024))).
  assert (q == inject_Z n / inject_Z (1024 * 1024))%Q as Hq by apply Qred_correct.
  assert (0 <= q)%Q as Hq0.
  { rewrite Hq. apply Qle_shift_div_l; [done|]. lra. }
  assert (is_neg q = false) as ->.
  { unfold is_neg. apply Z.ltb_ge. destruct q as [a b]. unfold Qle in Hq0.
    cbn in *. lia. }
  assert (Qfloor (Qabs q * 100 + (1 # 2)) = 0) as ->.
  { apply Qfloor_unit.
    - rewrite Qabs_pos by done. lra.
    - rewrite Qabs_pos by done. rewrite Hq.
      assert (inject_Z n / inject_Z (1024 * 1024) <= 5242 # 1048576)%Q.
      { apply Qle_shift_div_r; [done|].
        change (inject_Z (1024 * 1024)) with (1048576 # 1)%Q.
        change (inject_Z 5242) with (5242 # 1)%Q in H1. lra. }
      lra. }
  reflexivity.
Qed.

Lemma downloadedSizeMB_small (n : Z) : 0 ≤ n ≤ 5242 → downloadedSizeMB n = Num 0.
Proof. intros Hn. unfold downloadedSizeMB. by rewrite toFixed2_small. Qed.

(** Dividing by zero never gives a finite number. *)
Lemma div_zero_not_finite x : isFinite (div x (Num 0)) = false.
Proof. destruct x as [a| | |]; cbn; [|done..]. unfold signed_inf. by repeat case_match. Qed.

(** What an active tracker calls on [update]: the clock, the duration
    formatter on the estimate it derived, and, when the formatter returns,
    the render surface with what the formatter returned. *)
Lemma update_active_calls env this chunk w :
  isActive this = true →
  let downloaded := downloadedSizeMB (totalSize this + Buffer_length chunk) in
  let elapsed := elapsedTime (Date_now env w) (startTime this) in
  let seconds := estimatedTimeRemaining (totalSizeMB this) downloaded elapsed in
  ∃ rest,
    calls (update env chunk (this, w)).2.2
    = calls w ++ DateNow :: SecondsToDuration seconds :: rest ∧
    ∀ eta, secondsToDuration env (record DateNow w) seconds = Returns eta →
      ∃ rest', rest = BarUpdate downloaded (toFixed2 (div downloaded elapsed)) eta :: rest'.
Proof.
  intros Hactive downloaded elapsed seconds.
  subst downloaded elapsed seconds.
  unfold downloadedSizeMB, elapsedTime, estimatedTimeRemaining.
  unfold update, this_, assign. unfold_M. unfold record.
  cbn -[div mul sub toFixed2 parseFloat of_Z ToNumber Z.add Z.sub Z.mul].
  rewrite Hactive.
  cbn -[div mul sub toFixed2 parseFloat of_Z ToNumber Z.add Z.sub Z.mul].
  destruct (secondsToDuration env _ _) as [eta|e];
    cbn -[div mul sub toFixed2 parseFloat of_Z ToNumber Z.add Z.sub Z.mul].
  - destruct (SingleBar_update env _) as [[]|e];
      cbn -[div mul sub toFixed2 parseFloat of_Z ToNumber Z.add Z.sub Z.mul];
      eexists; (split; [by rewrite <- !(assoc_L (++))|]); intros ? [= <-]; eauto.
  - eexists. split; [by rewrite <- !(assoc_L (++))|]. done.
Qed.

End EtaFacts.

(** X23.  [update] applies no clamp to the estimate and puts no sentinel in
    its place.  On an active tracker, as long as the bytes received round to
    0.00 megabytes (fewer than 5243 bytes), the estimate it derives,
    remaining x elapsed / received, is NaN or infinite; it hands this value
    as it is to [secondsToDuration], and what the render surface then gets as
    ETA is exactly what [secondsToDuration] returned for it.  When
    [secondsToDuration] throws instead, the render surface is not called:
    the error goes to the console. *)
Theorem update_applies_no_clamp env this chunk w :
  ProgressBar.isActive this = true →
  let bytes := ProgressBar.totalSize this + Buffer_length chunk in
  let elapsed := Spec.elapsedTime (Date_now env w) (ProgressBar.startTime this) in
  0 ≤ bytes ≤ 5242 →
  let seconds :=
    Spec.estimatedTimeRemaining (ProgressBar.totalSizeMB this) (Num 0) elapsed in
  isFinite seconds = false
  ∧ ∃ rest,
      calls (ProgressBar.update env chunk (this, w)).2.2
      = calls w ++ DateNow :: SecondsToDuration seconds :: rest
      ∧ match secondsToDuration env (record DateNow w) seconds with
        | Returns eta =>
            ∃ logs,
              rest = BarUpdate (Num 0) (toFixed2 (div (Num 0) elapsed)) eta :: logs
              ∧ Forall (λ c, Trace.is_log c = true) logs
        | Throws e =>
            rest = [ConsoleError ("Progress bar update error: " +:+ error_message e)]
        end.
Proof.
  intros Hactive bytes elapsed Hsmall seconds.
  split; [apply div_zero_not_finite|].
  pose proof (downloadedSizeMB_small bytes Hsmall) as Hnone.
  subst bytes elapsed seconds.
  unfold Spec.downloadedSizeMB, Spec.elapsedTime, Spec.estimatedTimeRemaining in *.
  unfold ProgressBar.update, ProgressBar.this_, ProgressBar.assign. unfold_M.
  unfold record.
  cbn -[div mul sub toFixed2 parseFloat of_Z ToNumber Z.add Z.sub Z.mul].
  rewrite Hactive.
  cbn -[div mul sub toFixed2 parseFloat of_Z ToNumber Z.add Z.sub Z.mul].
  rewrite Hnone.
  destruct (secondsToDuration env _ _) as [eta|e];
    cbn -[div mul sub toFixed2 parseFloat of_Z ToNumber Z.add Z.sub Z.mul].
  - destruct (SingleBar_update env _) as [[]|e];
      cbn -[div mul sub toFixed2 parseFloat of_Z ToNumber Z.add Z.sub Z.mul];
      eexists; (split; [by rewrite <- !(assoc_L (++))|]);
      eexists; (split; [done|]); by repeat constructor.
  - eexists. split; [by rewrite <- !(assoc_L (++))|]. done.
Qed.

Lemma update_applies_no_clamp_witness :
  calls (ProgressBar.update Sample.env (replicate 1024 Byte.x00)
           (Sample.tracker, Sample.world)).2.2
  = [DateNow; SecondsToDuration PosInf; BarUpdate (Num 0) "0.00" "<duration>"].
Proof.
  destruct (update_applies_no_clamp Sample.env Sample.tracker
              (replicate 1024 Byte.x00) Sample.world eq_refl)
    as (_ & rest & Hcalls & Hrest).
  - vm_compute. split; discriminate.
  - rewrite Hcalls. vm_compute in Hrest. destruct Hrest as (logs & -> & Hlogs).
    vm_compute in Hcalls. vm_compute. by injection Hcalls as <-.
Defined.

(* ===================================================================== *)
(** * More about the file manager *)
(* ===================================================================== *)

Section FileManagerMore.
Variable env : Env.
Import FileManager Spec Trace.

(** X1. [normalizeDirPath] gives a normal form: normalizing a normalized path
    changes nothing; the result is empty exactly for a blank path and
    otherwise ends with the platform separator. And since
    [generateUniqueFilename] normalizes the directory it is given, handing it
    the normalized path (as [downloadOne] does) or the raw one makes no
    difference. *)
Theorem normalizeDirPath_normal_form dirPath :
  let normalized := normalizeDirPath env dirPath in
  normalizeDirPath env normalized = normalized
  ∧ (normalized = "" ↔ trim dirPath = "")
  ∧ (normalized ≠ "" → endsWith normalized (path_sep (platform env)) = true)
  ∧ (∀ fileName strategy,
       generateUniqueFilename env normalized fileName strategy
       = generateUniqueFilename env dirPath fileName strategy).
Proof.
  intros normalized. split; [apply normalizeDirPath_idemp|].
  split; [|split].
  - subst normalized. unfold normalizeDirPath.
    case_bool_decide as Hblank; [done|].
    split; [|done]. intros Hempty. exfalso.
    destruct (trim_head dirPath) as [|(a & t & Ht & _)]; [done|].
    rewrite Ht in Hempty.
    destruct (endsWith _ _); [done|]. by rewrite string_app_cons in Hempty.
  - subst normalized. unfold normalizeDirPath.
    case_bool_decide as Hblank; [done|]. intros _.
    destruct (endsWith (trim dirPath) _) eqn:Hends; [done|]. apply endsWith_app.
  - intros fileName strategy. unfold generateUniqueFilename.
    subst normalized. by rewrite normalizeDirPath_idemp.
Qed.

Lemma lastIndexOf_suffix s c :
  lastIndexOf s c ≠ -1 →
  ∃ rest, substring_from s (lastIndexOf s c) = String c rest ∧ lastIndexOf rest c = -1.
Proof.
  induction s as [|a s IH]; [done|]. cbn [lastIndexOf].
  unfold substring_from, substring in *.
  case_bool_decide as Hrest.
  - case_bool_decide as Hhead; [|done]. intros _. subst a. exists s.
    replace (Z.to_nat 0) with 0%nat by done.
    replace (Z.to_nat (Z.of_nat (String.length (String c s)) - 0))
      with (S (String.length s)) by (cbn [String.length]; lia).
    cbn [String.substring]. by rewrite substring_all.
  - intros _. destruct (IH Hrest) as (rest & Hsub & Hno). exists rest.
    split; [|done]. rewrite <- Hsub.
    destruct (lastIndexOf_range s c) as [|Hrange]; [done|].
    replace (Z.to_nat (lastIndexOf s c + 1)) with (S (Z.to_nat (lastIndexOf s c)))
      by lia.
    cbn [String.substring String.length]. f_equal. lia.
Qed.

(** X2. The split of a file name at its last dot loses nothing: the base name
    followed by the extension is the file name again. The extension is empty
    exactly when the name has no dot; otherwise it is a dot followed by a text
    without dot. A name without dot is its own base name. *)
Theorem parse_round_trip fileName :
  parse_baseName fileName +:+ parse_extension fileName = fileName
  ∧ (parse_extension fileName = "" ↔ lastIndexOf fileName "." = -1)
  ∧ (parse_extension fileName = ""
     ∨ ∃ rest, parse_extension fileName = String "." rest ∧ lastIndexOf rest "." = -1)
  ∧ (lastIndexOf fileName "." = -1 → parse_baseName fileName = fileName).
Proof.
  split; [apply parse_split|]. unfold parse_baseName, parse_extension.
  case_bool_decide as Hdot.
  - destruct (lastIndexOf_suffix fileName "." Hdot) as (rest & -> & Hrest).
    split; [split; [done|by intros ?]|]. split; [|done]. right. eauto.
  - split; [done|]. split; [by left|done].
Qed.

Lemma probes_are_probes normalizedPath baseName extension counter n :
  Forall (λ c, is_probe c = true) (probes normalizedPath baseName extension counter n).
Proof. unfold probes. by apply Forall_fmap, Forall_true. Qed.

Lemma generateUniqueFilename_trace dirPath fileName strategy w :
  ∃ uniqueName extra,
    generateUniqueFilename env dirPath fileName strategy w
    = (Normal uniqueName,
       {| fs := fs w;
          calls := calls w ++
            ExistsSync (normalizeDirPath env dirPath +:+ fileName) :: extra |})
    ∧ Forall (λ c, is_probe c = true) extra
    ∧ (uniqueName = fileName
       ∨ ∃ mid, uniqueName
                = parse_baseName fileName +:+ "-" +:+ mid +:+ parse_extension fileName).
Proof.
  destruct (decide (normalizeDirPath env dirPath +:+ fileName ∈ fs w)) as [Hin|Hout].
  2:{ rewrite generateUniqueFilename_absent by done.
      exists fileName, []. split; [done|]. split; [done|by left]. }
  unfold generateUniqueFilename, existsSync.
  bind_goal. rewrite bool_decide_true by done. cbn [negb].
  set (baseName := parse_baseName fileName).
  set (extension := parse_extension fileName).
  set (w1 := record _ w).
  destruct strategy as [strategy|]; cbn [default].
  2:{ rewrite bool_decide_true by done. unfold_M. cbn.
      eexists _, [DateNow].
      split; [subst w1; unfold record; cbn [fs calls];
              by rewrite <- (assoc_L (++))|].
      split; [by repeat constructor|]. right. eauto. }
  case_bool_decide as Ht.
  { unfold_M. cbn. eexists _, [DateNow].
    split; [subst w1; unfold record; cbn [fs calls];
            by rewrite <- (assoc_L (++))|].
    split; [by repeat constructor|]. right. eauto. }
  case_bool_decide as Hc.
  { unfold mbind, M_bind, get. cbn [fs w1 record].
    destruct (counter_loop_spec (normalizeDirPath env dirPath) baseName extension
                (S (size (fs w))) 1 w1)
      as [(n & Hn & Heq & _) | (w' & _ & Hall)].
    - rewrite Heq. eexists _, _. cbn [w1 record fs calls]. rewrite <- (assoc_L (++)).
      split; [reflexivity|]. split; [apply probes_are_probes|].
      right. exists ("(" +:+ pretty n +:+ ")"). unfold counter_name.
      by rewrite !string_app_assoc.
    - by apply counter_pigeonhole in Hall. }
  case_bool_decide as Hr.
  { unfold_M. cbn. eexists _, [MathRandom].
    split; [subst w1; unfold record; cbn [fs calls];
            by rewrite <- (assoc_L (++))|].
    split; [by repeat constructor|]. right. eauto. }
  unfold_M. cbn. eexists _, [DateNow].
  split; [subst w1; unfold record; cbn [fs calls];
          by rewrite <- (assoc_L (++))|].
  split; [by repeat constructor|]. right. eauto.
Qed.

(** X3. [generateUniqueFilename] always returns a name, under every strategy,
    and it only looks: the file system is as before, the first call is the
    existence check of the desired path, and whatever follows is an existence
    check, a clock read or a random draw. The name is the desired one or
    [base-<something>ext]. *)
Theorem generateUniqueFilename_reads_only dirPath fileName strategy w :
  ∃ uniqueName extra,
    generateUniqueFilename env dirPath fileName strategy w
    = (Normal uniqueName,
       {| fs := fs w;
          calls := calls w ++
            ExistsSync (normalizeDirPath env dirPath +:+ fileName) :: extra |})
    ∧ Forall (λ c, is_probe c = true) extra
    ∧ (uniqueName = fileName
       ∨ ∃ mid, uniqueName
                = parse_baseName fileName +:+ "-" +:+ mid +:+ parse_extension fileName).
Proof. apply generateUniqueFilename_trace. Qed.

(** X4. A strategy that is neither [counter] nor [random] (an unknown word, or
    none) behaves as [timestamp]. On a collision it returns
    [base-<Date.now()>ext] after one existence check and one clock read: the
    decorated name is not checked again. *)
Theorem unknown_strategy_is_timestamp dirPath fileName strategy w :
  strategy ≠ Some "counter" →
  strategy ≠ Some "random" →
  generateUniqueFilename env dirPath fileName strategy w
  = generateUniqueFilename env dirPath fileName (Some "timestamp") w
  ∧ (normalizeDirPath env dirPath +:+ fileName ∈ fs w →
     let looked := record (ExistsSync (normalizeDirPath env dirPath +:+ fileName)) w in
     generateUniqueFilename env dirPath fileName strategy w
     = (Normal (parse_baseName fileName +:+ "-" +:+ pretty (Date_now env looked) +:+
                parse_extension fileName),
        record DateNow looked)).
Proof.
  intros Hc Hr.
  assert (generateUniqueFilename env dirPath fileName strategy w
          = generateUniqueFilename env dirPath fileName (Some "timestamp") w) as Heq.
  { unfold generateUniqueFilename, existsSync. unfold mbind, M_bind.
    destruct (negb (bool_decide _)); [done|].
    destruct strategy as [strategy|]; cbn [default from_option id]; [|done].
    rewrite (bool_decide_true ("timestamp" = "timestamp")) by done.
    case_bool_decide; [done|].
    rewrite bool_decide_false by (by intros ->).
    rewrite bool_decide_false by (by intros ->). done. }
  split; [done|]. intros Hin looked. rewrite Heq.
  unfold generateUniqueFilename, existsSync. bind_goal.
  rewrite bool_decide_true by done. cbn [negb default].
  by rewrite bool_decide_true.
Qed.

(** X5. Under the [counter] strategy a collision costs one existence check per
    candidate: after the check of the desired path the loop probes
    [base-(1)ext], [base-(2)ext], ... in this order, returns the first
    candidate that does not exist, and calls nothing else. *)
Theorem counter_strategy_probes dirPath fileName w :
  normalizeDirPath env dirPath +:+ fileName ∈ fs w →
  ∃ n,
    (1 ≤ n)%nat ∧
    generateUniqueFilename env dirPath fileName (Some "counter") w
    = (Normal (counter_name (parse_baseName fileName) (parse_extension fileName) n),
       {| fs := fs w;
          calls := calls w ++
            ExistsSync (normalizeDirPath env dirPath +:+ fileName) ::
            probes (normalizeDirPath env dirPath) (parse_baseName fileName)
              (parse_extension fileName) 1 n |})
    ∧ normalizeDirPath env dirPath +:+
        counter_name (parse_baseName fileName) (parse_extension fileName) n ∉ fs w.
Proof.
  intros Hin. unfold generateUniqueFilename, existsSync.
  bind_goal. rewrite bool_decide_true by done. cbn [negb default from_option id].
  rewrite bool_decide_false by done. rewrite bool_decide_true by done.
  unfold mbind, M_bind, get. cbn [fs record].
  destruct (counter_loop_spec (normalizeDirPath env dirPath) (parse_baseName fileName)
              (parse_extension fileName) (S (size (fs w))) 1
              (record (ExistsSync (normalizeDirPath env dirPath +:+ fileName)) w))
    as [(n & Hn & Heq & Hfree & _) | (w' & _ & Hall)].
  - exists n. split; [lia|]. split; [|done]. rewrite Heq. unfold record. cbn [fs calls].
    replace (S n - 1)%nat with n by lia. by rewrite <- (assoc_L (++)).
  - by apply counter_pigeonhole in Hall.
Qed.

(** What [ensureDirectoryExists] does with a path that is not blank. *)
Lemma ensureDirectoryExists_visible dirPath w :
  trim dirPath ≠ "" →
  ensureDirectoryExists env dirPath w
  = (match (make_dir env w dirPath).1 with
     | Returns created => Normal created
     | Throws cause =>
         Throw (FileSystemError ("Failed to create directory: " +:+ dirPath)
                  dirPath cause)
     end,
     {| fs := (make_dir env w dirPath).2; calls := calls w ++ [MakeDir dirPath] |}).
Proof.
  intros Hvisible. unfold ensureDirectoryExists, pathCreator_make_dir. unfold_M.
  rewrite bool_decide_false by done.
  by destruct (make_dir env w dirPath) as [[created|cause] X].
Qed.

Lemma ensureDirectoryExists_blank dirPath w :
  trim dirPath = "" → ensureDirectoryExists env dirPath w = (Normal true, w).
Proof.
  intros Hblank. unfold ensureDirectoryExists. unfold_M.
  by rewrite bool_decide_true.
Qed.

Lemma ensureDirectoryExists_world path w r w1 :
  FileManager.ensureDirectoryExists env path w = (r, w1) →
  calls w1 = calls w ++ (if bool_decide (trim path = "") then [] else [MakeDir path]).
Proof.
  case_bool_decide as Hblank.
  - rewrite ensureDirectoryExists_blank by done. intros [= _ <-]. by rewrite app_nil_r.
  - rewrite ensureDirectoryExists_visible by done. by intros [= _ <-].
Qed.

(** X6. [ensureDirectoryExists] fails only through its collaborator: when it
    does not return [true], the path was not blank, [make_dir] was called
    once, with the path as given (not trimmed), and either [make_dir] returned
    [false], which is passed on, or it threw, and the exception is wrapped in
    a [FileSystemError] carrying the path and the cause. *)
Theorem ensureDirectoryExists_failures dirPath w r w' :
  ensureDirectoryExists env dirPath w = (r, w') →
  r ≠ Normal true →
  trim dirPath ≠ ""
  ∧ w' = {| fs := (make_dir env w dirPath).2; calls := calls w ++ [MakeDir dirPath] |}
  ∧ ((r = Normal false ∧ (make_dir env w dirPath).1 = Returns false)
     ∨ ∃ cause,
         (make_dir env w dirPath).1 = Throws cause ∧
         r = Throw (FileSystemError ("Failed to create directory: " +:+ dirPath)
                      dirPath cause)).
Proof.
  intros Hrun Hfailed.
  destruct (decide (trim dirPath = "")) as [Hblank|Hvisible].
  { rewrite ensureDirectoryExists_blank in Hrun by done. congruence. }
  rewrite ensureDirectoryExists_visible in Hrun by done.
  injection Hrun as <- <-. split; [done|]. split; [done|].
  destruct (make_dir env w dirPath).1 as [[|]|cause]; [done|by left|right; eauto].
Qed.

Lemma createFileWriteStream_result filePath w :
  FileManager.createFileWriteStream env filePath w
  = (match (createWriteStream env w filePath).1 with
     | Returns _ => Normal tt
     | Throws cause =>
         Throw (FileSystemError ("Failed to create write stream for file: " +:+ filePath)
                  filePath cause)
     end,
     {| fs := (createWriteStream env w filePath).2;
        calls := calls w ++ [CreateWriteStream filePath] |}).
Proof.
  unfold FileManager.createFileWriteStream. unfold_M.
  by destruct (createWriteStream env w filePath) as [[[]|cause] X].
Qed.

End FileManagerMore.

Lemma unknown_strategy_is_timestamp_witness :
  FileManager.generateUniqueFilename Sample.env "out" "a.txt" (Some "uuid") Sample.world
  = (Normal "a-1700000001000.txt",
     record DateNow (record (ExistsSync "out/a.txt") Sample.world)).
Proof.
  refine (proj2 (unknown_strategy_is_timestamp Sample.env "out" "a.txt" (Some "uuid")
                   Sample.world _ _) _).
  - discriminate.
  - discriminate.
  - vm_compute. reflexivity.
Defined.

Lemma counter_strategy_probes_witness :
  ∃ n,
    (1 ≤ n)%nat ∧
    FileManager.generateUniqueFilename Sample.env "out" "a.txt" (Some "counter")
      Sample.world
    = (Normal (FileManager.counter_name "a" ".txt" n),
       {| fs := fs Sample.world;
          calls := ExistsSync "out/a.txt" :: Spec.probes "out/" "a" ".txt" 1 n |})
    ∧ "out/" +:+ FileManager.counter_name "a" ".txt" n ∉ fs Sample.world.
Proof.
  apply (counter_strategy_probes Sample.env "out" "a.txt" Sample.world).
  vm_compute. reflexivity.
Defined.

Lemma ensureDirectoryExists_failures_witness :
  FileManager.ensureDirectoryExists Sample.env "/denied" Sample.world
  = (Throw (FileSystemError "Failed to create directory: /denied" "/denied"
              (Error_ "EACCES: permission denied")),
     {| fs := fs Sample.world; calls := [MakeDir "/denied"] |}).
Proof.
  destruct (ensureDirectoryExists_failures Sample.env "/denied" Sample.world
              (Throw (FileSystemError "Failed to create directory: /denied" "/denied"
                        (Error_ "EACCES: permission denied")))
              {| fs := fs Sample.world; calls := [MakeDir "/denied"] |})
    as (_ & _ & _).
  - vm_compute. reflexivity.
  - discriminate.
  - vm_compute. reflexivity.
Defined.

(* ===================================================================== *)
(** * More about the progress tracker *)
(* ===================================================================== *)

Section ProgressBarMore.
Variable env : Env.
Import ProgressBar Spec Trace.

(** X7. [start] and the active flag. When [start] returns, the tracker was
    inactive before and is active now, with zero bytes counted and the start
    time read from the clock; the total, a text, is stored and handed to the
    render surface with zero, the bar number, [N/A] and [00:00:00]. When it
    throws on an active tracker ([Progress bar is already active]) nothing has
    changed and nothing was called; when it throws otherwise the message
    starts with [Failed to start progress bar: ] and the tracker is left
    inactive. It never runs forever. *)
Theorem start_outcome data barNumber pb w :
  match start env data barNumber (pb, w) with
  | (Normal _, (pb', w')) =>
      isActive pb = false ∧ isActive pb' = true ∧ totalSize pb' = 0 ∧
      startTime pb' = Date_now env w ∧
      ∃ total,
        totalSizeMB pb' = VStr total ∧
        w' = record (BarStart total 0 barNumber "N/A" "00:00:00") (record DateNow w)
  | (Throw e, (pb', w')) =>
      (isActive pb = true ∧ e = Error_ "Progress bar is already active" ∧
       pb' = pb ∧ w' = w)
      ∨ (isActive pb = false ∧ isActive pb' = false ∧
         ∃ reason, e = Error_ ("Failed to start progress bar: " +:+ reason))
  | (Diverge, _) => False
  end.
Proof.
  unfold start, this_, assign, content_length_header. unfold_M. cbn.
  destruct (isActive pb) eqn:Hactive; cbn; [by left|].
  destruct (headers data) as [h|]; cbn.
  - destruct (SingleBar_start env _) as [[]|e]; cbn.
    + repeat split; eauto.
    + right. repeat split; eauto.
  - right. repeat split; eauto.
Qed.

(** X8. A response without a usable [content-length] (no such header, or one
    from which [parseInt] reads no number) gives a total of [0.00]: this is
    what the tracker stores and what the render surface is started with. *)
Theorem start_without_content_length data barNumber pb w h :
  isActive pb = false →
  headers data = Some h →
  h !! "content-length" = None
  ∨ (∃ s, h !! "content-length" = Some s ∧ parseInt10 s = NaN) →
  let started := (start env data barNumber (pb, w)).2 in
  totalSizeMB started.1 = VStr "0.00"
  ∧ calls started.2
    = calls w ++ [DateNow; BarStart "0.00" 0 barNumber "N/A" "00:00:00"].
Proof.
  intros Hinactive Hheaders Hlength.
  assert (or_zero (match h !! "content-length" with
                   | Some s => parseInt10 s
                   | None => NaN
                   end) = Num 0) as Hzero.
  { destruct Hlength as [-> | (s & -> & ->)]; reflexivity. }
  unfold start, this_, assign, content_length_header. unfold_M.
  cbn -[toFixed2 div or_zero parseInt10 of_Z].
  rewrite Hinactive, Hheaders.
  cbn -[toFixed2 div or_zero parseInt10 of_Z]. rewrite Hzero.
  change (toFixed2 (div (Num 0) (of_Z (1024 * 1024)))) with "0.00".
  destruct (SingleBar_start env _) as [[]|e]; cbn;
    by rewrite <- (assoc_L (++)).
Qed.

(** Starting a fresh tracker. *)
Lemma start_new dataStream barNumber w :
  (∃ total progressBar,
     ProgressBar.start env dataStream barNumber (ProgressBar.new, w)
     = (Normal tt,
        (progressBar,
         record (BarStart total 0 barNumber "N/A" "00:00:00") (record DateNow w)))
     ∧ ProgressBar.isActive progressBar = true)
  ∨ (∃ reason progressBar w',
       ProgressBar.start env dataStream barNumber (ProgressBar.new, w)
       = (Throw (Error_ ("Failed to start progress bar: " +:+ reason)),
          (progressBar, w'))
       ∧ ProgressBar.isActive progressBar = false
       ∧ adds_only (λ c, negb (is_log c)) w w').
Proof.
  unfold ProgressBar.start, ProgressBar.this_, ProgressBar.assign,
    ProgressBar.content_length_header. unfold_M. cbn.
  destruct (headers dataStream) as [h|]; cbn.
  - destruct (SingleBar_start env _) as [[]|e]; cbn.
    + left. by eexists _, _.
    + right. eexists _, _, _. split; [done|]. split; [done|]. split; [done|].
      unfold record. cbn [calls]. rewrite <- (assoc_L (++)).
      eexists. split; [done|]. by repeat constructor.
  - right. eexists _, _, _. split; [done|]. split; [done|]. split; [done|].
    unfold record. cbn [calls]. eexists. split; [done|]. by repeat constructor.
Qed.

(** [update] never throws; an active tracker counts the chunk whether or
    not the formatter and the render surface fail, an inactive one is left
    alone. *)
Lemma update_state chunk pb w :
  ∃ w',
    ProgressBar.update env chunk (pb, w)
    = (Normal tt,
       (if ProgressBar.isActive pb
        then ProgressBar.set_totalSize (ProgressBar.totalSize pb + Buffer_length chunk) pb
        else pb,
        w'))
    ∧ fs w' = fs w
    ∧ (ProgressBar.isActive pb = false → w' = w).
Proof.
  unfold ProgressBar.update, ProgressBar.this_, ProgressBar.assign. unfold_M. cbn.
  destruct (ProgressBar.isActive pb) eqn:Hactive; cbn; [|by eexists].
  destruct (secondsToDuration env _ _) as [eta|e]; cbn; [|by eexists].
  destruct (SingleBar_update env _) as [[]|e]; cbn; by eexists.
Qed.

(** X9. [update] never throws. On an active tracker the length of the chunk is
    added to the byte count whether or not the duration formatter or the
    render surface fail, and no other field changes. On an inactive tracker
    nothing happens at all: no field changes and nothing is called. The file
    system is never touched. *)
Theorem update_counts_bytes chunk pb w :
  ∃ w',
    update env chunk (pb, w)
    = (Normal tt,
       (if isActive pb
        then set_totalSize (totalSize pb + Buffer_length chunk) pb else pb,
        w'))
    ∧ fs w' = fs w
    ∧ (isActive pb = false → w' = w).
Proof. apply update_state. Qed.

Lemma div_by_zero_text x :
  toFixed2 (div x (Num 0)) = "NaN" ∨ toFixed2 (div x (Num 0)) = "Infinity"
  ∨ toFixed2 (div x (Num 0)) = "-Infinity".
Proof.
  destruct x as [a| | |]; cbn; [|by auto..].
  unfold signed_inf. destruct (is_zero a), (is_neg a); by auto.
Qed.

(** X10. [update] divides the megabytes received by the seconds elapsed
    without a guard: when the clock still reads the start time, the speed
    handed to the render surface (when the duration formatter returns) is not
    a decimal number but the text [NaN], [Infinity] or [-Infinity]; it is
    [NaN] as long as the bytes received round to 0.00 megabytes. *)
Theorem update_speed_without_elapsed_time this chunk w eta :
  isActive this = true →
  Date_now env w = startTime this →
  let bytes := totalSize this + Buffer_length chunk in
  let seconds :=
    estimatedTimeRemaining (totalSizeMB this) (downloadedSizeMB bytes) (Num 0) in
  secondsToDuration env (record DateNow w) seconds = Returns eta →
  ∃ speed rest,
    calls (update env chunk (this, w)).2.2
    = calls w ++ DateNow :: SecondsToDuration seconds ::
        BarUpdate (downloadedSizeMB bytes) speed eta :: rest
    ∧ (speed = "NaN" ∨ speed = "Infinity" ∨ speed = "-Infinity")
    ∧ (0 ≤ bytes ≤ 5242 → speed = "NaN").
Proof.
  intros Hactive Hnow bytes seconds Heta.
  destruct (update_active_calls env this chunk w Hactive) as (rest & Hcalls & Hrest).
  assert (elapsedTime (Date_now env w) (startTime this) = Num 0) as Helapsed.
  { unfold elapsedTime. by rewrite Hnow, Z.sub_diag. }
  rewrite Helapsed in Hcalls, Hrest. fold bytes seconds in Hcalls, Hrest.
  destruct (Hrest eta Heta) as [rest' ->].
  eexists _, rest'. split; [done|]. split; [apply div_by_zero_text|].
  intros Hsmall. by rewrite downloadedSizeMB_small.
Qed.

Lemma adds_only_refl kind w : adds_only kind w w.
Proof. split; [done|]. exists []. by rewrite app_nil_r. Qed.

Lemma update_trace chunk pb w :
  ∃ pb' w',
    ProgressBar.update env chunk (pb, w) = (Normal tt, (pb', w'))
    ∧ ProgressBar.isActive pb' = ProgressBar.isActive pb
    ∧ adds_only is_progress w w'.
Proof.
  unfold ProgressBar.update, ProgressBar.this_, ProgressBar.assign. unfold_M. cbn.
  destruct (ProgressBar.isActive pb) eqn:Hactive; cbn.
  2:{ eexists _, _. split; [done|]. split; [done|]. apply adds_only_refl. }
  destruct (secondsToDuration env _ _) as [eta|e]; cbn.
  - destruct (SingleBar_update env _) as [[]|e]; cbn;
      (eexists _, _; split; [done|]; split; [done|]; split; [done|]);
      unfold record; cbn [calls]; rewrite <- !(assoc_L (++)); eexists;
      (split; [done|]); by repeat constructor.
  - eexists _, _. split; [done|]. split; [done|]. split; [done|].
    unfold record. cbn [calls]. rewrite <- !(assoc_L (++)). eexists. split; [done|].
    by repeat constructor.
Qed.

Lemma stop_trace pb w :
  ∃ pb' w' extra,
    ProgressBar.stop env (pb, w) = (Normal tt, (pb', w'))
    ∧ ProgressBar.isActive pb' = false
    ∧ fs w' = fs w
    ∧ calls w' = calls w ++ extra
    ∧ (if ProgressBar.isActive pb
       then ∃ logs, extra = BarStop :: logs ∧ Forall (λ c, is_log c = true) logs
       else extra = []).
Proof.
  unfold ProgressBar.stop, ProgressBar.this_. unfold_M. cbn.
  destruct (ProgressBar.isActive pb) eqn:Hactive; cbn.
  - destruct (SingleBar_stop env _) as [[]|e]; cbn.
    + exists (ProgressBar.set_isActive false pb), (record BarStop w), [BarStop].
      do 4 (split; [done|]). by exists [].
    + eexists (ProgressBar.set_isActive false pb), _, [BarStop; _].
      unfold record. cbn [calls fs]. rewrite <- (assoc_L (++)).
      do 4 (split; [done|]). eexists [_]. split; [done|]. by repeat constructor.
  - exists pb, w, []. rewrite app_nil_r. by repeat split.
Qed.

End ProgressBarMore.

Lemma start_without_content_length_witness :
  calls (ProgressBar.start Sample.env {| headers := Some ∅; events := [on_end] |} 3
           (ProgressBar.new, Sample.world)).2.2
  = [DateNow; BarStart "0.00" 0 3 "N/A" "00:00:00"].
Proof.
  refine (proj2 (start_without_content_length Sample.env
                   {| headers := Some ∅; events := [on_end] |} 3
                   ProgressBar.new Sample.world ∅ _ _ _)).
  - reflexivity.
  - reflexivity.
  - left. reflexivity.
Defined.

Lemma update_speed_without_elapsed_time_witness :
  calls (ProgressBar.update Sample.env (replicate 1024 Byte.x00)
           (Cases.tracker_just_started, Sample.world)).2.2
  = [DateNow; SecondsToDuration NaN; BarUpdate (Num 0) "NaN" "<duration>"].
Proof.
  destruct (update_speed_without_elapsed_time Sample.env
              Cases.tracker_just_started
              (replicate 1024 Byte.x00) Sample.world "<duration>")
    as (speed & rest & Hcalls & _ & Hsmall).
  - reflexivity.
  - reflexivity.
  - reflexivity.
  - rewrite Hcalls. vm_compute in Hcalls. by injection Hcalls as <- <-.
Defined.

(* ===================================================================== *)
(** * The handlers of a wired transfer *)
(* ===================================================================== *)

Section HandlersMore.
Variable env : Env.
Import Download Spec Trace.

Lemma world_eta (w : World) : {| fs := fs w; calls := calls w ++ [] |} = w.
Proof. destruct w. cbn. by rewrite app_nil_r. Qed.

(** On a tracker that is not active a handler only logs. *)
Lemma handler_inactive url filePath ev pb w :
  ProgressBar.isActive pb = false →
  handler env url filePath ev (pb, w)
  = (Normal (resolution url filePath ev),
     (pb, {| fs := fs w; calls := calls w ++ handler_log url filePath ev |})).
Proof.
  intros Hinactive. destruct ev as [chunk| |err|err]; cbn [handler handler_log resolution].
  - bind_goal. destruct (update_state env chunk pb w) as (w' & -> & _ & Hsame).
    rewrite Hinactive, (Hsame Hinactive), world_eta. reflexivity.
  - bind_goal. rewrite (stop_inactive env pb w Hinactive). reflexivity.
  - bind_goal. rewrite (stop_inactive env pb w Hinactive). reflexivity.
  - bind_goal. rewrite (stop_inactive env pb w Hinactive). reflexivity.
Qed.

Lemma emit_inactive url filePath evs settled pb w :
  ProgressBar.isActive pb = false →
  emit env url filePath evs settled (pb, w)
  = (Normal (if settled is Some _ then settled else settlement url filePath evs),
     (pb, {| fs := fs w; calls := calls w ++ (evs ≫= handler_log url filePath) |})).
Proof.
  intros Hinactive. revert settled w.
  induction evs as [|ev evs IH]; intros settled w.
  { cbn. rewrite world_eta. by destruct settled. }
  cbn [emit settlement]. bind_goal. rewrite handler_inactive by done.
  rewrite IH. cbn [fs calls]. rewrite <- (assoc_L (++)).
  f_equal. destruct settled; [done|]. by destruct (resolution url filePath ev).
Qed.

(** The handler of ['end'] or of an ['error'] leaves the tracker stopped. *)
Lemma handler_terminal url filePath ev s :
  is_data ev = false →
  ∃ s', handler env url filePath ev s = (Normal (resolution url filePath ev), s')
        ∧ ProgressBar.isActive s'.1 = false.
Proof.
  intros Hterminal. destruct ev as [chunk| |err|err]; [done|..];
    cbn [handler resolution]; bind_goal;
    destruct (stop_normal env s) as ([pb' w'] & -> & Hoff); eauto.
Qed.

Lemma emit_app url filePath evs1 evs2 settled s :
  emit env url filePath (evs1 ++ evs2) settled s
  = match emit env url filePath evs1 settled s with
    | (Normal settled1, s1) => emit env url filePath evs2 settled1 s1
    | other => other
    end.
Proof.
  revert settled s. induction evs1 as [|ev evs1 IH]; intros settled s; [done|].
  cbn [app emit]. unfold mbind, M_bind.
  destruct (handler_normal env url filePath ev s) as [s' ->]. apply IH.
Qed.

Lemma emit_stopped url filePath evs settled pb w :
  settlement url filePath evs ≠ None →
  ProgressBar.isActive (emit env url filePath evs settled (pb, w)).2.1 = false.
Proof.
  revert settled pb w. induction evs as [|ev evs IH]; intros settled pb w; [done|].
  cbn [emit settlement]. bind_goal. destruct (is_data ev) eqn:Hdata.
  - destruct (handler_normal env url filePath ev (pb, w)) as [[pb' w'] ->].
    destruct ev; [|done..]. cbn [resolution]. apply IH.
  - intros _. destruct (handler_terminal url filePath ev (pb, w) Hdata)
      as ([pb' w'] & -> & Hoff).
    by rewrite emit_inactive.
Qed.

Lemma is_log_progress c : is_log c = true → is_progress c = true.
Proof. by destruct c. Qed.

Lemma handler_trace url filePath ev pb w :
  ∃ pb' w' extra,
    handler env url filePath ev (pb, w) = (Normal (resolution url filePath ev), (pb', w'))
    ∧ fs w' = fs w
    ∧ calls w' = calls w ++ extra
    ∧ Forall (λ c, is_progress c = true) extra
    ∧ (is_data ev = true → ProgressBar.isActive pb' = ProgressBar.isActive pb)
    ∧ (is_data ev = false → ProgressBar.isActive pb = true → BarStop ∈ extra).
Proof.
  assert (∀ level text (resolved : option Result),
            ∃ pb' w' extra,
              ((ProgressBar.stop env;;
                on_world (call (ConsoleMessage level text));;
                mret resolved) : M (ProgressBar.t * World) (option Result)) (pb, w)
              = (Normal resolved, (pb', w'))
              ∧ fs w' = fs w
              ∧ calls w' = calls w ++ extra
              ∧ Forall (λ c, is_progress c = true) extra
              ∧ (ProgressBar.isActive pb = true → BarStop ∈ extra)) as Hstop.
  { intros level text resolved. bind_goal.
    destruct (stop_trace env pb w) as (pb' & w' & extra & -> & _ & Hfs & Hcalls & Hextra).
    unfold_M. cbn. eexists _, _, (extra ++ [_]). unfold record. cbn [calls fs].
    split; [done|]. split; [done|]. split; [by rewrite Hcalls, <- (assoc_L (++))|].
    destruct (ProgressBar.isActive pb).
    - destruct Hextra as (logs & -> & Hlogs).
      split; [|intros _; apply elem_of_app; left; constructor].
      apply Forall_app. split; [|by repeat constructor].
      constructor; [done|]. eapply Forall_impl; [done|]. apply is_log_progress.
    - subst extra. split; [by repeat constructor|done]. }
  destruct ev as [chunk| |err|err]; cbn [handler resolution is_data].
  - bind_goal.
    destruct (update_trace env chunk pb w) as (pb' & w' & -> & Hactive & Hfs & extra & Hc & Hk).
    cbn. eexists _, _, extra. by repeat split.
  - destruct (Hstop LogSucces ("Download completed." +:+ LF +:+ "File saved at: '" +:+
                                filePath +:+ "'") (Some (Success filePath)))
      as (pb' & w' & extra & Heq & ? & ? & ? & ?).
    exists pb', w', extra. by repeat split.
  - destruct (Hstop LogError
                (("Download failed for URL: " +:+ url) +:+ LF +:+ "Error details: " +:+
                 error_message err)
                (Some (Failure (DownloadFailedError ("Download failed for URL: " +:+ url)
                                  url filePath err))))
      as (pb' & w' & extra & Heq & ? & ? & ? & ?).
    exists pb', w', extra. by repeat split.
  - destruct (Hstop LogError
                (("Failed to write file: " +:+ filePath) +:+ LF +:+ "Error details: " +:+
                 error_message err)
                (Some (Failure (DownloadFailedError ("Failed to write file: " +:+ filePath)
                                  url filePath err))))
      as (pb' & w' & extra & Heq & ? & ? & ? & ?).
    exists pb', w', extra. by repeat split.
Qed.

Lemma emit_trace url filePath evs settled pb w :
  ∃ s' extra,
    emit env url filePath evs settled (pb, w)
    = (Normal (if settled is Some _ then settled else settlement url filePath evs), s')
    ∧ fs s'.2 = fs w
    ∧ calls s'.2 = calls w ++ extra
    ∧ Forall (λ c, is_progress c = true) extra
    ∧ (ProgressBar.isActive pb = true → settlement url filePath evs ≠ None →
       BarStop ∈ extra).
Proof.
  revert settled pb w. induction evs as [|ev evs IH]; intros settled pb w.
  { exists (pb, w), []. cbn. rewrite app_nil_r. repeat split; [|done..].
    by destruct settled. }
  cbn [emit settlement]. bind_goal.
  destruct (handler_trace url filePath ev pb w)
    as (pb1 & w1 & e1 & -> & Hfs1 & Hc1 & Hk1 & Hdata & Hterminal).
  destruct (IH (if settled is Some _ then settled else resolution url filePath ev) pb1 w1)
    as (s' & e2 & -> & Hfs2 & Hc2 & Hk2 & Hstop).
  exists s', (e1 ++ e2). split.
  { f_equal. destruct settled; [done|]. by destruct (resolution url filePath ev). }
  split; [congruence|]. split; [by rewrite Hc2, Hc1, (assoc_L (++))|].
  split; [by apply Forall_app|]. intros Hactive Hsettles.
  apply elem_of_app. destruct (is_data ev) eqn:Hev.
  - right. apply Hstop; [by rewrite Hdata|]. by destruct ev.
  - left. by apply Hterminal.
Qed.

Lemma settlement_failure url filePath evs e :
  settlement url filePath evs = Some (Failure e) →
  ∃ cause,
    e = DownloadFailedError ("Download failed for URL: " +:+ url) url filePath cause
    ∨ e = DownloadFailedError ("Failed to write file: " +:+ filePath) url filePath cause.
Proof.
  induction evs as [|ev evs IH]; [done|]. cbn [settlement].
  destruct ev as [chunk| |err|err]; cbn [resolution]; [done|done|..];
    intros [= <-]; eauto.
Qed.

Lemma settlement_comes_to_an_end url filePath dataStream :
  settlement url filePath (events dataStream) ≠ None ↔ comes_to_an_end dataStream = true.
Proof.
  split.
  - unfold comes_to_an_end. induction (events dataStream) as [|ev evs IH]; [done|].
    cbn [settlement existsb]. destruct ev; cbn [resolution is_data negb orb]; auto.
  - intros Hends. by destruct (settlement_ends url filePath dataStream Hends) as [r ->].
Qed.

(** X11. A run of ['data'] events does not settle the promise. On an active
    tracker the byte count grows by the total length of the chunks, whatever
    the formatter and the render surface do; on an inactive one nothing
    changes. The file system is as before. *)
Theorem data_events_accumulate url filePath chunks settled pb w :
  ∃ w',
    emit env url filePath (on_data <$> chunks) settled (pb, w)
    = (Normal settled,
       (if ProgressBar.isActive pb
        then ProgressBar.set_totalSize (ProgressBar.totalSize pb + total_length chunks) pb
        else pb,
        w'))
    ∧ fs w' = fs w.
Proof.
  revert settled pb w. induction chunks as [|chunk chunks IH]; intros settled pb w.
  { exists w. split; [|done]. cbn. destruct pb as [n t m []]; [|done].
    unfold ProgressBar.set_totalSize. cbn. by rewrite Z.add_0_r. }
  cbn [fmap list_fmap emit handler]. bind_goal. bind_goal.
  destruct (update_state env chunk pb w) as (w1 & -> & Hfs1 & _).
  cbn [mret M_ret].
  destruct (IH (if settled is Some _ then settled else None)
              (if ProgressBar.isActive pb
               then ProgressBar.set_totalSize
                      (ProgressBar.totalSize pb + Buffer_length chunk) pb
               else pb) w1) as (w2 & Heq & Hfs2).
  exists w2. split; [|congruence].
  change (list_fmap Buffer StreamEvent on_data chunks) with (on_data <$> chunks).
  rewrite Heq. f_equal; [by destruct settled|]. f_equal.
  clear Heq. destruct pb as [n t m []]; [|done].
  unfold ProgressBar.set_totalSize, total_length. cbn. f_equal. lia.
Qed.

(** X12. Once the events of a transfer contain an ['end'] or an ['error'] (of
    the response or of the sink), the tracker is inactive after them: every
    handler that settles the promise stops the progress bar, and no handler
    starts it again. *)
Theorem settled_transfer_is_stopped url filePath evs settled pb w :
  settlement url filePath evs ≠ None →
  ProgressBar.isActive (emit env url filePath evs settled (pb, w)).2.1 = false.
Proof. apply emit_stopped. Qed.

(** X13. What is emitted after an ['end'] or an ['error'] changes neither the
    outcome nor the tracker and reaches neither the clock nor the render
    surface: each later ['end'] or ['error'] only adds its log line (so an
    ['end'] that follows a sink error still logs [Download completed.]), later
    chunks add nothing. *)
Theorem events_after_settlement_only_log url filePath before ev after settled pb w :
  is_data ev = false →
  ∃ result pb1 w1,
    emit env url filePath (before ++ [ev]) settled (pb, w)
    = (Normal (Some result), (pb1, w1))
    ∧ emit env url filePath (before ++ ev :: after) settled (pb, w)
      = (Normal (Some result),
         (pb1, {| fs := fs w1;
                  calls := calls w1 ++ (after ≫= handler_log url filePath) |})).
Proof.
  intros Hterminal.
  destruct (emit_normal env url filePath (before ++ [ev]) settled (pb, w))
    as [[pb1 w1] Hrun].
  assert (∃ result, (if settled is Some _ then settled
                     else settlement url filePath (before ++ [ev])) = Some result)
    as [result Hresult].
  { destruct settled; [eauto|]. clear Hrun. induction before as [|b before IH].
    - destruct ev; [done|cbn; eauto..].
    - cbn [app settlement]. destruct (resolution url filePath b); eauto. }
  rewrite Hresult in Hrun. exists result, pb1, w1. split; [done|].
  assert (ProgressBar.isActive pb1 = false) as Hoff.
  { rewrite emit_app in Hrun.
    destruct (emit_normal env url filePath before settled (pb, w)) as [s0 Hbefore].
    rewrite Hbefore in Hrun. cbn [emit] in Hrun. bind_in Hrun.
    destruct (handler_terminal url filePath ev s0 Hterminal)
      as ([pb' w'] & Hev & Hoff).
    rewrite Hev in Hrun. cbn in Hrun. by injection Hrun as _ <- _. }
  rewrite (cons_middle ev before after), (assoc_L (++)), emit_app, Hrun.
  by rewrite emit_inactive.
Qed.

End HandlersMore.

Lemma settled_transfer_is_stopped_witness :
  ProgressBar.isActive
    (Download.emit Sample.env "http://example.com/a" "out/a.txt" Cases.disk_full None
       (Sample.tracker, Sample.world)).2.1
  = false.
Proof.
  apply (settled_transfer_is_stopped Sample.env "http://example.com/a" "out/a.txt"
           Cases.disk_full None Sample.tracker Sample.world).
  vm_compute. discriminate.
Defined.

Lemma events_after_settlement_only_log_witness :
  ∃ result pb1 w1,
    Download.emit Sample.env "http://example.com/a" "out/a.txt"
      [on_data (replicate 1024 Byte.x00);
       on_write_error (Error_ "ENOSPC: no space left on device")]
      None (Sample.tracker, Sample.world)
    = (Normal (Some result), (pb1, w1))
    ∧ Download.emit Sample.env "http://example.com/a" "out/a.txt" Cases.disk_full
        None (Sample.tracker, Sample.world)
      = (Normal (Some result),
         (pb1,
          {| fs := fs w1;
             calls := calls w1 ++
               [ConsoleMessage LogSucces
                  ("Download completed." +:+ LF +:+ "File saved at: 'out/a.txt'")] |})).
Proof.
  apply (events_after_settlement_only_log Sample.env "http://example.com/a" "out/a.txt"
           [on_data (replicate 1024 Byte.x00)]
           (on_write_error (Error_ "ENOSPC: no space left on device"))
           [on_end] None Sample.tracker Sample.world).
  reflexivity.
Defined.

(* ===================================================================== *)
(** * One download, step by step *)
(* ===================================================================== *)

Section TransferMore.
Variable this : Download.t.
Variable env : Env.
Import Download Spec Trace.

(** The outer [try] after the fetch, step by step. *)
Lemma transfer_steps url path fileName downloadNumber strategy dataStream pb0 w :
  transfer env url path fileName downloadNumber strategy dataStream (pb0, w)
  = match FileManager.ensureDirectoryExists env path w with
    | (Normal true, w1) =>
        let normalizedPath := FileManager.normalizeDirPath env path in
        match FileManager.generateUniqueFilename env normalizedPath fileName
                (Some strategy) w1 with
        | (Normal uniqueFileName, w2) =>
            let filePath := normalizedPath +:+ uniqueFileName in
            match ProgressBar.start env dataStream downloadNumber
                    (ProgressBar.new, w2) with
            | (Normal _, (progressBar, w3)) =>
                match FileManager.createFileWriteStream env filePath w3 with
                | (Normal _, w4) =>
                    (Normal (ReturnPromise filePath dataStream progressBar),
                     (Some progressBar, record (Pipe filePath) w4))
                | (Throw e, w4) => (Throw e, (Some progressBar, w4))
                | (Diverge, w4) => (Diverge, (Some progressBar, w4))
                end
            | (Throw e, (progressBar, w3)) => (Throw e, (Some progressBar, w3))
            | (Diverge, (progressBar, w3)) => (Diverge, (Some progressBar, w3))
            end
        | (Throw e, w2) => (Throw e, (pb0, w2))
        | (Diverge, w2) => (Diverge, (pb0, w2))
        end
    | (Normal false, w1) =>
        (Normal (ReturnResult (Failure (Error_ ("Failed to create directory: " +:+ path)))),
         (pb0, record (ConsoleMessage LogError ("Failed to create directory: " +:+ path))
                 w1))
    | (Throw e, w1) => (Throw e, (pb0, w1))
    | (Diverge, w1) => (Diverge, (pb0, w1))
    end.
Proof.
  unfold transfer. bind_goal. unfold on_world at 1.
  destruct (FileManager.ensureDirectoryExists env path w) as [[[|]| |] w1];
    [|reflexivity..].
  cbn [negb]. cbv zeta. bind_goal. unfold on_world at 1.
  destruct (FileManager.generateUniqueFilename env _ fileName (Some strategy) w1)
    as [[uniqueFileName| |] w2]; [|reflexivity..].
  bind_goal. unfold modify at 1. cbn [snd]. bind_goal. unfold on_progressBar at 1.
  destruct (ProgressBar.start env dataStream downloadNumber (ProgressBar.new, w2))
    as [[[]| |] [progressBar w3]]; [|reflexivity..].
  bind_goal. unfold on_world at 1.
  destruct (FileManager.createFileWriteStream env _ w3) as [[[]| |] w4];
    reflexivity.
Qed.

Lemma catch_block_world url e pb w :
  catch_block env url e (pb, w)
  = (Normal (ReturnResult (Failure e)),
     match pb with
     | Some progressBar =>
         let stopped := (ProgressBar.stop env (progressBar, w)).2 in
         (Some stopped.1,
          record (ConsoleMessage LogError
                    ("Error downloading from URL: " +:+ url +:+ LF +:+
                     "Error details: " +:+ error_message e)) stopped.2)
     | None =>
         (None,
          record (ConsoleMessage LogError
                    ("Error downloading from URL: " +:+ url +:+ LF +:+
                     "Error details: " +:+ error_message e)) w)
     end).
Proof.
  unfold catch_block. bind_goal. unfold get at 1. cbn [fst]. destruct pb as [progressBar|].
  - bind_goal. unfold on_progressBar at 1.
    destruct (stop_normal env (progressBar, w)) as ([pb' w'] & -> & _). reflexivity.
  - reflexivity.
Qed.

(** [downloadOne], step by step. *)
Lemma downloadOne_steps url (options : DownloadOneOptions) w :
  downloadOne this env url options w
  = match axios_get env w url (timeout this) with
    | Throws cause =>
        (Resolved (Failure (FetchError ("Failed to fetch data from URL: " +:+ url)
                              url cause)),
         record (ConsoleMessage LogError
                   (("Failed to fetch data from URL: " +:+ url) +:+ LF +:+
                    "Error details: " +:+ or_unknown_error (Some (error_message cause))))
           (record (AxiosGet url (timeout this)) w))
    | Returns dataStream =>
        match transfer env url (default "" (path options))
                (default "file" (fileName options))
                (default 1 (downloadNumber options))
                (default (fileNamingStrategy this) (optFileNamingStrategy options))
                dataStream (None, record (AxiosGet url (timeout this)) w) with
        | (Normal (ReturnResult result), s) => (Resolved result, s.2)
        | (Normal (ReturnPromise filePath dataStream' progressBar), s) =>
            transfer_promise env url filePath dataStream' progressBar s.2
        | (Throw e, s) => (Resolved (Failure e), (catch_block env url e s).2.2)
        | (Diverge, s) => (Pending, s.2)
        end
    end.
Proof.
  rewrite downloadOne_unfold. unfold guarded, try_catch.
  destruct (axios_get env w url (timeout this)) as [dataStream|cause] eqn:Hget.
  - rewrite (try_body_fetched _ _ _ _ _ _ _ _ _ _ Hget).
    destruct (transfer _ _ _ _ _ _ _ _) as [[[result|filePath ds' pb]|e|] s];
      [reflexivity..| |reflexivity].
    by destruct (catch_block_normal env url e s) as [s' ->].
  - by rewrite (try_body_fetch_failed _ _ _ _ _ _ _ _ _ _ Hget).
Qed.

(** Every way the outer [try] can go once the response is there. *)
Lemma transfer_outcomes url path fileName downloadNumber strategy dataStream pb0 w :
  let r := transfer env url path fileName downloadNumber strategy dataStream (pb0, w) in
  let normalizedPath := FileManager.normalizeDirPath env path in
  (∃ cause w1,
     FileManager.ensureDirectoryExists env path w
     = (Throw (FileSystemError ("Failed to create directory: " +:+ path) path cause), w1) ∧
     r = (Throw (FileSystemError ("Failed to create directory: " +:+ path) path cause),
          (pb0, w1)))
  ∨ (∃ w1,
       FileManager.ensureDirectoryExists env path w = (Normal false, w1) ∧
       r = (Normal (ReturnResult
                      (Failure (Error_ ("Failed to create directory: " +:+ path)))),
            (pb0, record (ConsoleMessage LogError ("Failed to create directory: " +:+ path))
                    w1)))
  ∨ (∃ w1 uniqueName w2,
       FileManager.ensureDirectoryExists env path w = (Normal true, w1) ∧
       FileManager.generateUniqueFilename env normalizedPath fileName (Some strategy) w1
       = (Normal uniqueName, w2) ∧
       let filePath := normalizedPath +:+ uniqueName in
       (∃ reason progressBar w3,
          ProgressBar.isActive progressBar = false ∧
          adds_only (λ c, negb (is_log c)) w2 w3 ∧
          r = (Throw (Error_ ("Failed to start progress bar: " +:+ reason)),
               (Some progressBar, w3)))
       ∨ (∃ total progressBar,
            let w3 := record (BarStart total 0 downloadNumber "N/A" "00:00:00")
                        (record DateNow w2) in
            let w4 := {| fs := (createWriteStream env w3 filePath).2;
                         calls := calls w3 ++ [CreateWriteStream filePath] |} in
            ProgressBar.isActive progressBar = true ∧
            ((∃ cause,
                (createWriteStream env w3 filePath).1 = Throws cause ∧
                r = (Throw (FileSystemError
                              ("Failed to create write stream for file: " +:+ filePath)
                              filePath cause),
                     (Some progressBar, w4)))
             ∨ ((∃ sink, (createWriteStream env w3 filePath).1 = Returns sink) ∧
                r = (Normal (ReturnPromise filePath dataStream progressBar),
                     (Some progressBar, record (Pipe filePath) w4)))))).
Proof.
  intros r normalizedPath. subst r. rewrite transfer_steps.
  assert (∃ r1 w1, FileManager.ensureDirectoryExists env path w = (r1, w1) ∧
            (r1 = Normal true ∨ r1 = Normal false
             ∨ ∃ cause, r1 = Throw (FileSystemError ("Failed to create directory: " +:+ path)
                                      path cause))) as (r1 & w1 & Hens & Hr1).
  { destruct (decide (trim path = "")) as [Hblank|Hvisible].
    - rewrite ensureDirectoryExists_blank by done. eauto.
    - rewrite ensureDirectoryExists_visible by done. eexists _, _. split; [done|].
      destruct (make_dir env w path).1 as [[|]|cause]; eauto. }
  rewrite Hens.
  destruct Hr1 as [-> | [-> | [cause ->]]]; [|right; left; eauto|left; eauto].
  right. right. cbv zeta. fold normalizedPath.
  destruct (generateUniqueFilename_normal env normalizedPath fileName (Some strategy) w1)
    as (uniqueName & w2 & Hgen & _).
  rewrite Hgen. exists w1, uniqueName, w2. split; [done|]. split; [done|].
  destruct (start_new env dataStream downloadNumber w2)
    as [(total & progressBar & -> & Hon) | (reason & progressBar & w3 & -> & Hoff & Hadds)].
  - right. exists total, progressBar. split; [done|].
    rewrite createFileWriteStream_result.
    destruct (createWriteStream env _ _).1 as [[]|cause]; [right|left]; eauto.
  - left. eauto 10.
Qed.

(** X14. When the directory cannot be ensured ([make_dir] returns [false] or
    throws, on a path that is not blank), [downloadOne] resolves to a failure
    having made three calls only: the GET, [make_dir] with the path as given,
    and one error log. No name was resolved, no tracker started, no sink
    opened. The error is a plain [Error] when [make_dir] returned [false], and
    a [FileSystemError] with the path and the cause when it threw; the log
    then shows the message of the wrapper. *)
Theorem downloadOne_directory_failure url (options : DownloadOneOptions) w dataStream :
  let path := default "" (path options) in
  let w0 := record (AxiosGet url (timeout this)) w in
  axios_get env w url (timeout this) = Returns dataStream →
  trim path ≠ "" →
  (make_dir env w0 path).1 ≠ Returns true →
  ∃ error text,
    downloadOne this env url options w
    = (Resolved (Failure error),
       {| fs := (make_dir env w0 path).2;
          calls := calls w ++ [AxiosGet url (timeout this); MakeDir path;
                               ConsoleMessage LogError text] |})
    ∧ match (make_dir env w0 path).1 with
      | Returns _ =>
          error = Error_ ("Failed to create directory: " +:+ path) ∧
          text = "Failed to create directory: " +:+ path
      | Throws cause =>
          error = FileSystemError ("Failed to create directory: " +:+ path) path cause ∧
          text = "Error downloading from URL: " +:+ url +:+ LF +:+ "Error details: " +:+
                 "Failed to create directory: " +:+ path
      end.
Proof.
  intros path w0 Hget Hvisible Hfailed.
  rewrite downloadOne_steps, Hget, transfer_steps. fold path w0.
  rewrite (ensureDirectoryExists_visible env path w0 Hvisible).
  destruct (make_dir env w0 path).1 as [[|]|cause]; [done|..].
  - eexists _, _. split; [|done]. cbn [snd]. unfold w0, record. cbn [fs calls].
    by rewrite <- !(assoc_L (++)).
  - eexists _, _. split; [|done]. rewrite catch_block_world. cbn [snd].
    unfold w0, record. cbn [fs calls error_message].
    by rewrite <- !(assoc_L (++)).
Qed.

(** X15. The errors a failure result of [downloadOne] can carry are these and
    no others: a [FetchError] for the URL; a plain [Error] [Failed to create
    directory: <path>]; a [FileSystemError] for the directory path; a plain
    [Error] [Failed to start progress bar: ...]; a [FileSystemError] for the
    file that could not be opened; a [DownloadFailedError] for an error of the
    response stream, or one for an error of the sink, both with the URL and
    the file path. *)
Theorem downloadOne_failure_kinds url (options : DownloadOneOptions) w error w' :
  downloadOne this env url options w = (Resolved (Failure error), w') →
  let path := default "" (path options) in
  (∃ cause, error = FetchError ("Failed to fetch data from URL: " +:+ url) url cause)
  ∨ error = Error_ ("Failed to create directory: " +:+ path)
  ∨ (∃ cause,
       error = FileSystemError ("Failed to create directory: " +:+ path) path cause)
  ∨ (∃ reason, error = Error_ ("Failed to start progress bar: " +:+ reason))
  ∨ (∃ filePath cause,
       error = FileSystemError ("Failed to create write stream for file: " +:+ filePath)
                 filePath cause)
  ∨ (∃ filePath cause,
       error = DownloadFailedError ("Download failed for URL: " +:+ url)
                 url filePath cause)
  ∨ (∃ filePath cause,
       error = DownloadFailedError ("Failed to write file: " +:+ filePath)
                 url filePath cause).
Proof.
  intros Hrun path. rewrite downloadOne_steps in Hrun. fold path in Hrun.
  destruct (axios_get env w url (timeout this)) as [dataStream|cause].
  2:{ injection Hrun as <- _. left. eauto. }
  destruct (transfer_outcomes url path (default "file" (fileName options))
              (default 1 (downloadNumber options))
              (default (fileNamingStrategy this) (optFileNamingStrategy options))
              dataStream None (record (AxiosGet url (timeout this)) w))
    as [(cause & w1 & _ & Hr) | [(w1 & _ & Hr) | (w1 & uniqueName & w2 & _ & _ &
         [(reason & pb & w3 & _ & _ & Hr) | (total & pb & _ &
           [(cause & _ & Hr) | (_ & Hr)])])]];
    rewrite Hr in Hrun; clear Hr.
  - injection Hrun as <- _. right. right. left. eauto.
  - injection Hrun as <- _. right. left. done.
  - injection Hrun as <- _. do 3 right. left. eauto.
  - injection Hrun as <- _. do 4 right. left. eauto.
  - cbn [snd] in Hrun.
    apply (f_equal fst) in Hrun. rewrite transfer_promise_spec in Hrun. cbn [fst] in Hrun.
    destruct (settlement _ _ _) as [[fp|e]|] eqn:Hs; [done| |done].
    injection Hrun as ->. apply settlement_failure in Hs as [cause [-> | ->]].
    + do 5 right. left. eauto.
    + do 6 right. eauto.
Qed.

(** X16. A successful [downloadOne] has made these calls, in this order: the
    GET; [make_dir] with the path as given, unless the path is blank; the
    existence checks (and clock or random reads) of the name resolution; the
    clock read and the start of the render surface with the display number;
    the opening of the sink at the [filePath] it returns; the pipe into it;
    then only calls of the tracker and the logs, among them the stop of the
    render surface. The [filePath] is the normalized (trimmed) directory
    followed by the resolved name. *)
Theorem downloadOne_success_trace url (options : DownloadOneOptions) w filePath w' :
  downloadOne this env url options w = (Resolved (Success filePath), w') →
  let path := default "" (path options) in
  ∃ uniqueName total probes progress,
    filePath = FileManager.normalizeDirPath env path +:+ uniqueName
    ∧ calls w'
      = calls w ++
        AxiosGet url (timeout this) ::
        (if bool_decide (trim path = "") then [] else [MakeDir path]) ++
        probes ++
        [DateNow;
         BarStart total 0 (default 1 (downloadNumber options)) "N/A" "00:00:00";
         CreateWriteStream filePath;
         Pipe filePath] ++
        progress
    ∧ Forall (λ c, is_probe c = true) probes
    ∧ Forall (λ c, is_progress c = true) progress
    ∧ BarStop ∈ progress.
Proof.
  intros Hrun path. rewrite downloadOne_steps in Hrun. fold path in Hrun.
  destruct (axios_get env w url (timeout this)) as [dataStream|cause]; [|done].
  set (w0 := record _ w) in Hrun.
  destruct (transfer_outcomes url path (default "file" (fileName options))
              (default 1 (downloadNumber options))
              (default (fileNamingStrategy this) (optFileNamingStrategy options))
              dataStream None w0)
    as [(cause & w1 & _ & Hr) | [(w1 & _ & Hr) | (w1 & uniqueName & w2 & Hens & Hgen &
         [(reason & pb & w3 & _ & _ & Hr) | (total & pb & Hon &
           [(cause & _ & Hr) | (_ & Hr)])])]];
    rewrite Hr in Hrun; clear Hr; [done..|].
  cbn [snd] in Hrun. unfold transfer_promise in Hrun.
  set (fp := FileManager.normalizeDirPath env path +:+ uniqueName) in *.
  destruct (emit_trace env url fp (events dataStream) None pb
              (record (Pipe fp)
                 {| fs := (createWriteStream env
                             (record (BarStart total 0 (default 1 (downloadNumber options))
                                        "N/A" "00:00:00") (record DateNow w2)) fp).2;
                    calls := calls (record (BarStart total 0
                                              (default 1 (downloadNumber options))
                                              "N/A" "00:00:00") (record DateNow w2)) ++
                             [CreateWriteStream fp] |}))
    as ([pb' w''] & progress & Hemit & _ & Hcalls & Hprogress & Hstop).
  rewrite Hemit in Hrun.
  destruct (settlement url fp (events dataStream)) as [[fp'|e]|] eqn:Hs; [|done..].
  injection Hrun as <- <-. apply settlement_success in Hs as ->.
  destruct (generateUniqueFilename_trace env (FileManager.normalizeDirPath env path)
              (default "file" (fileName options))
              (Some (default (fileNamingStrategy this) (optFileNamingStrategy options))) w1)
    as (u' & extra & Hg & Hprobes & _).
  rewrite Hg in Hgen. injection Hgen as -> <-.
  exists uniqueName, total, (ExistsSync
    (FileManager.normalizeDirPath env (FileManager.normalizeDirPath env path) +:+
     default "file" (fileName options)) :: extra), progress.
  split; [done|]. split.
  { cbn [snd] in Hcalls. rewrite Hcalls. unfold record. cbn [calls fs].
    rewrite (ensureDirectoryExists_world _ _ _ _ _ Hens). unfold w0, record. cbn [calls].
    rewrite <- !(assoc_L (++)). reflexivity. }
  split; [by constructor|]. split; [done|]. by apply Hstop.
Qed.

Lemma sink_message_ne path filePath :
  "Failed to create directory: " +:+ path
  ≠ "Failed to create write stream for file: " +:+ filePath.
Proof. rewrite !string_app_cons. discriminate. Qed.

(** X17. When opening the sink fails, the result carries a [FileSystemError]
    for the file, and by then the tracker, which had been started, has been
    stopped: the call after the failed opening is the stop of the render
    surface, and only log lines follow. Nothing was piped. *)
Theorem downloadOne_sink_failure url (options : DownloadOneOptions) w filePath cause w' :
  downloadOne this env url options w
  = (Resolved (Failure (FileSystemError
                          ("Failed to create write stream for file: " +:+ filePath)
                          filePath cause)), w') →
  let path := default "" (path options) in
  ∃ total probes logs,
    calls w'
    = calls w ++
      AxiosGet url (timeout this) ::
      (if bool_decide (trim path = "") then [] else [MakeDir path]) ++
      probes ++
      [DateNow;
       BarStart total 0 (default 1 (downloadNumber options)) "N/A" "00:00:00";
       CreateWriteStream filePath;
       BarStop] ++
      logs
    ∧ Forall (λ c, is_probe c = true) probes
    ∧ Forall (λ c, is_log c = true) logs.
Proof.
  intros Hrun path. rewrite downloadOne_steps in Hrun. fold path in Hrun.
  destruct (axios_get env w url (timeout this)) as [dataStream|cause0]; [|done].
  set (w0 := record _ w) in Hrun.
  destruct (transfer_outcomes url path (default "file" (fileName options))
              (default 1 (downloadNumber options))
              (default (fileNamingStrategy this) (optFileNamingStrategy options))
              dataStream None w0)
    as [(cause0 & w1 & _ & Hr) | [(w1 & _ & Hr) | (w1 & uniqueName & w2 & Hens & Hgen &
         [(reason & pb & w3 & _ & _ & Hr) | (total & pb & Hon &
           [(cause0 & _ & Hr) | (_ & Hr)])])]];
    rewrite Hr in Hrun; clear Hr.
  - apply (f_equal (λ r, if r.1 is Resolved (Failure e) then error_message e else ""))
      in Hrun. cbn [fst error_message] in Hrun. by apply sink_message_ne in Hrun.
  - done.
  - done.
  - assert (normalizedPath_eq :
              FileManager.normalizeDirPath env path +:+ uniqueName = filePath
              ∧ cause0 = cause
              ∧ (catch_block env url
                   (FileSystemError
                      ("Failed to create write stream for file: " +:+
                       FileManager.normalizeDirPath env path +:+ uniqueName)
                      (FileManager.normalizeDirPath env path +:+ uniqueName) cause0)
                   (Some pb,
                    {| fs := (createWriteStream env
                                (record (BarStart total 0
                                           (default 1 (downloadNumber options))
                                           "N/A" "00:00:00") (record DateNow w2))
                                (FileManager.normalizeDirPath env path +:+ uniqueName)).2;
                       calls :=
                         calls (record (BarStart total 0
                                          (default 1 (downloadNumber options))
                                          "N/A" "00:00:00") (record DateNow w2)) ++
                         [CreateWriteStream
                            (FileManager.normalizeDirPath env path +:+ uniqueName)] |})).2.2
                = w').
    { split; [|split].
      - by apply (f_equal (λ r, if r.1 is Resolved (Failure (FileSystemError _ p _))
                                then p else "")) in Hrun.
      - by apply (f_equal (λ r, if r.1 is Resolved (Failure (FileSystemError _ _ c))
                                then c else cause)) in Hrun.
      - by apply (f_equal snd) in Hrun. }
    clear Hrun. destruct normalizedPath_eq as (Hpath & -> & <-). rewrite Hpath.
    rewrite catch_block_world. cbn [snd fst].
    set (w3 := record (BarStart _ _ _ _ _) _).
    destruct (stop_trace env pb {| fs := (createWriteStream env w3 filePath).2;
                               calls := calls w3 ++ [CreateWriteStream filePath] |})
      as (pb' & w4 & extra & -> & _ & _ & Hcalls & Hextra).
    rewrite Hon in Hextra. destruct Hextra as (logs & -> & Hlogs).
    destruct (generateUniqueFilename_trace env (FileManager.normalizeDirPath env path)
                (default "file" (fileName options))
                (Some (default (fileNamingStrategy this) (optFileNamingStrategy options)))
                w1) as (u' & probes & Hg & Hprobes & _).
    rewrite Hg in Hgen. injection Hgen as -> <-.
    eexists total, (_ :: probes), (logs ++ [_]).
    split; [|split].
    + unfold record. cbn [snd calls fs]. rewrite Hcalls. cbn [calls].
      unfold w3, record. cbn [calls].
      rewrite (ensureDirectoryExists_world _ _ _ _ _ Hens). unfold w0, record. cbn [calls].
      rewrite <- !(assoc_L (++)). reflexivity.
    + by constructor.
    + apply Forall_app. split; [done|]. by repeat constructor.
  - cbn [snd] in Hrun. apply (f_equal fst) in Hrun.
    rewrite transfer_promise_spec in Hrun. cbn [fst] in Hrun.
    destruct (settlement _ _ _) as [[fp|e]|] eqn:Hs; [done| |done].
    injection Hrun as ->. by apply settlement_failure in Hs as [cause0 [|]].
Qed.

(** X18. [downloadOne] stays unsettled only when the response was obtained and
    piped into the sink and its stream then emits neither ['end'] nor an
    ['error']. And a response whose stream does not come to an end never gives
    a success. *)
Theorem downloadOne_pending_only_on_endless_stream url (options : DownloadOneOptions) w :
  (∀ w', downloadOne this env url options w = (Pending, w') →
     ∃ dataStream filePath,
       axios_get env w url (timeout this) = Returns dataStream ∧
       comes_to_an_end dataStream = false ∧
       Pipe filePath ∈ calls w')
  ∧ (∀ dataStream filePath,
       axios_get env w url (timeout this) = Returns dataStream →
       comes_to_an_end dataStream = false →
       (downloadOne this env url options w).1 ≠ Resolved (Success filePath)).
Proof.
  rewrite downloadOne_steps.
  destruct (axios_get env w url (timeout this)) as [dataStream|cause]; [|by split].
  set (w0 := record _ w).
  destruct (transfer_outcomes url (default "" (path options))
              (default "file" (fileName options))
              (default 1 (downloadNumber options))
              (default (fileNamingStrategy this) (optFileNamingStrategy options))
              dataStream None w0)
    as [(cause & w1 & _ & Hr) | [(w1 & _ & Hr) | (w1 & uniqueName & w2 & Hens & Hgen &
         [(reason & pb & w3 & _ & _ & Hr) | (total & pb & Hon &
           [(cause & _ & Hr) | (_ & Hr)])])]];
    rewrite Hr; clear Hr; [by split; [|intros ? ? [= <-]]..|].
  cbn [snd].
  set (fp := FileManager.normalizeDirPath env (default "" (path options)) +:+ uniqueName).
  split.
  - intros w' Hrun. exists dataStream, fp. split; [done|].
    assert (settlement url fp (events dataStream) = None) as Hnone.
    { apply (f_equal fst) in Hrun. rewrite transfer_promise_spec in Hrun.
      cbn [fst] in Hrun. by destruct (settlement url fp (events dataStream)). }
    split.
    { destruct (comes_to_an_end dataStream) eqn:Hends; [|done].
      by apply (settlement_comes_to_an_end url fp) in Hends. }
    unfold transfer_promise in Hrun.
    destruct (emit_trace env url fp (events dataStream) None pb
                (record (Pipe fp)
                   {| fs := (createWriteStream env
                               (record (BarStart total 0
                                          (default 1 (downloadNumber options))
                                          "N/A" "00:00:00") (record DateNow w2)) fp).2;
                      calls := calls (record (BarStart total 0
                                                (default 1 (downloadNumber options))
                                                "N/A" "00:00:00") (record DateNow w2)) ++
                               [CreateWriteStream fp] |}))
      as ([pb' w''] & progress & Hemit & _ & Hcalls & _).
    rewrite Hemit, Hnone in Hrun. injection Hrun as <-.
    cbn [snd] in Hcalls. rewrite Hcalls. unfold record at 1. cbn [calls].
    set_solver.
  - intros ds filePath [= <-] Hendless Hrun.
    rewrite transfer_promise_spec in Hrun.
    destruct (settlement url fp (events dataStream)) eqn:Hs; [|done].
    assert (comes_to_an_end dataStream = true); [|congruence].
    apply (settlement_comes_to_an_end url fp). congruence.
Qed.

End TransferMore.

Lemma downloadOne_directory_failure_witness :
  Download.downloadOne Sample.downloader Sample.env "http://example.com/a"
    (Sample.options "/denied" "a.txt") Sample.world
  = (Resolved (Download.Failure
       (FileSystemError "Failed to create directory: /denied" "/denied"
          (Error_ "EACCES: permission denied"))),
     {| fs := fs Sample.world;
        calls := [AxiosGet "http://example.com/a" 5000; MakeDir "/denied";
                  ConsoleMessage LogError
                    ("Error downloading from URL: http://example.com/a" +:+ LF +:+
                     "Error details: Failed to create directory: /denied")] |}).
Proof.
  destruct (downloadOne_directory_failure Sample.downloader Sample.env
              "http://example.com/a" (Sample.options "/denied" "a.txt") Sample.world
              Sample.response) as (error & text & Hrun & Hkind).
  - reflexivity.
  - vm_compute. discriminate.
  - vm_compute. discriminate.
  - rewrite Hrun. vm_compute in Hkind. destruct Hkind as [-> ->]. reflexivity.
Defined.

Lemma downloadOne_failure_kinds_witness :
  ∃ cause,
    FileSystemError "Failed to create directory: /denied" "/denied"
      (Error_ "EACCES: permission denied")
    = FileSystemError ("Failed to create directory: " +:+ "/denied") "/denied" cause.
Proof.
  destruct (downloadOne_failure_kinds Sample.downloader Sample.env
              "http://example.com/a" (Sample.options "/denied" "a.txt") Sample.world
              (FileSystemError "Failed to create directory: /denied" "/denied"
                 (Error_ "EACCES: permission denied"))
              (Download.downloadOne Sample.downloader Sample.env "http://example.com/a"
                 (Sample.options "/denied" "a.txt") Sample.world).2)
    as [[cause H] | [H | [H | [[reason H] | [(fp & cause & H) | [(fp & cause & H) |
        (fp & cause & H)]]]]]]; try discriminate H.
  - vm_compute. reflexivity.
  - exact H.
Defined.

Lemma downloadOne_success_trace_witness :
  ∃ uniqueName total probes progress,
    "out/a-(2).txt" = FileManager.normalizeDirPath Sample.env " out " +:+ uniqueName
    ∧ calls (Download.downloadOne Sample.downloader Sample.env "http://example.com/a"
               (Sample.options " out " "a.txt") Sample.world).2
      = calls Sample.world ++
        AxiosGet "http://example.com/a" 5000 ::
        [MakeDir " out "] ++
        probes ++
        [DateNow; BarStart total 0 1 "N/A" "00:00:00";
         CreateWriteStream "out/a-(2).txt"; Pipe "out/a-(2).txt"] ++
        progress
    ∧ Forall (λ c, Trace.is_probe c = true) probes
    ∧ Forall (λ c, Trace.is_progress c = true) progress
    ∧ BarStop ∈ progress.
Proof.
  apply (downloadOne_success_trace Sample.downloader Sample.env "http://example.com/a"
           (Sample.options " out " "a.txt") Sample.world "out/a-(2).txt").
  vm_compute. reflexivity.
Defined.

Lemma downloadOne_sink_failure_witness :
  ∃ total probes logs,
    calls (Download.downloadOne Sample.downloader Cases.env_sink_fails
             "http://example.com/b" (Sample.options "out" "b.txt") Sample.world).2
    = calls Sample.world ++
      AxiosGet "http://example.com/b" 5000 ::
      [MakeDir "out"] ++
      probes ++
      [DateNow; BarStart total 0 1 "N/A" "00:00:00";
       CreateWriteStream "out/b.txt"; BarStop] ++
      logs
    ∧ Forall (λ c, Trace.is_probe c = true) probes
    ∧ Forall (λ c, Trace.is_log c = true) logs.
Proof.
  apply (downloadOne_sink_failure Sample.downloader Cases.env_sink_fails
           "http://example.com/b" (Sample.options "out" "b.txt") Sample.world
           "out/b.txt" (Error_ "EISDIR: illegal operation on a directory")).
  vm_compute. reflexivity.
Defined.

Lemma downloadOne_pending_only_on_endless_stream_witness :
  ∃ dataStream filePath,
    axios_get Cases.env_endless Sample.world "http://example.com/a" 5000
    = Returns dataStream ∧
    Spec.comes_to_an_end dataStream = false ∧
    Pipe filePath
    ∈ calls (Download.downloadOne Sample.downloader Cases.env_endless
               "http://example.com/a" (Sample.options "out" "b.txt") Sample.world).2.
Proof.
  apply (proj1 (downloadOne_pending_only_on_endless_stream Sample.downloader
                  Cases.env_endless "http://example.com/a"
                  (Sample.options "out" "b.txt") Sample.world)).
  vm_compute. reflexivity.
Defined.

Section DisplayFailures.
Variable this : Download.t.
Variable env : Env.
Import Download Spec Trace.

(** X19. Failures of the display never change a download: whatever the
    duration formatter, the update of the render surface and its stop do
    (return or throw), [downloadOne] resolves with the same result and leaves
    the same file system. (A render surface that fails to start is another
    matter: it fails the download.) *)
Theorem display_failures_do_not_change_the_result url (options : DownloadOneOptions) w
    (format : World → jsnum → answer string) (render halt : World → answer unit) :
  let env' :=
    {| platform := platform env;
       axios_get := axios_get env;
       make_dir := make_dir env;
       createWriteStream := createWriteStream env;
       Date_now := Date_now env;
       Math_random_toString36 := Math_random_toString36 env;
       secondsToDuration := format;
       SingleBar_start := SingleBar_start env;
       SingleBar_update := render;
       SingleBar_stop := halt |} in
  (downloadOne this env' url options w).1 = (downloadOne this env url options w).1
  ∧ fs (downloadOne this env' url options w).2 = fs (downloadOne this env url options w).2.
Proof.
  intros env'. rewrite !downloadOne_steps.
  change (axios_get env' w url (timeout this)) with (axios_get env w url (timeout this)).
  destruct (axios_get env w url (timeout this)) as [dataStream|cause]; [|done].
  set (w0 := record _ w).
  change (transfer env' url (default "" (path options))
            (default "file" (fileName options)) (default 1 (downloadNumber options))
            (default (fileNamingStrategy this) (optFileNamingStrategy options))
            dataStream (None, w0))
    with (transfer env url (default "" (path options))
            (default "file" (fileName options)) (default 1 (downloadNumber options))
            (default (fileNamingStrategy this) (optFileNamingStrategy options))
            dataStream (None, w0)).
  destruct (transfer env url _ _ _ _ dataStream (None, w0))
    as [[[result|filePath ds pb]|e|] [pb1 w1]]; [done| | |done].
  - rewrite !transfer_promise_spec. split; [done|]. unfold transfer_promise. cbn [snd].
    destruct (emit_trace env' url filePath (events ds) None pb w1)
      as (s1 & extra1 & -> & Hfs1 & _).
    destruct (emit_trace env url filePath (events ds) None pb w1)
      as (s2 & extra2 & -> & Hfs2 & _).
    destruct (settlement url filePath (events ds)); cbn [snd]; congruence.
  - split; [done|]. rewrite !catch_block_world. cbn [snd]. destruct pb1 as [pb|]; [|done].
    destruct (stop_trace env' pb w1) as (pb' & w' & extra1 & -> & _ & Hfs1 & _).
    destruct (stop_trace env pb w1) as (pb'' & w'' & extra2 & -> & _ & Hfs2 & _).
    cbn [snd fst record fs]. congruence.
Qed.

End DisplayFailures.

(* ===================================================================== *)
(** * The documented defaults, the empty batch, the usage example *)
(* ===================================================================== *)

Section MoreOfTheEngine.
Import Download Spec Trace Constants BasicUsage.

(** X20. The documented defaults are the defaults: on an instance built
    without options, [downloadOne] with [DOWNLOAD_ONE_OPTIONS] is
    [downloadOne] with no option at all. On any instance, passing
    [DOWNLOAD_ONE_OPTIONS] fixes the naming strategy to [timestamp], whatever
    the instance was built with. And [downloadMany] reads only [url], [path]
    and [fileName] of [DOWNLOAD_MANY_OPTIONS]. *)
Theorem documented_defaults env url w :
  let plain := Download.new {| options_timeout := None;
                               options_fileNamingStrategy := None |} in
  let empty := {| path := None; fileName := None; downloadNumber := None;
                  optFileNamingStrategy := None |} in
  downloadOne plain env url DOWNLOAD_ONE_OPTIONS w = downloadOne plain env url empty w
  ∧ (∀ this,
       downloadOne this env url DOWNLOAD_ONE_OPTIONS w
       = downloadOne {| timeout := timeout this; fileNamingStrategy := "timestamp" |}
           env url empty w)
  ∧ (∀ this,
       downloadMany this env [object DOWNLOAD_MANY_OPTIONS] w
       = downloadMany this env [object {| Download.url := ""; options := empty |}] w).
Proof. done. Qed.

(** X21. [downloadMany] without arguments resolves with the empty list, having
    logged [Starting download of 0 file.] and [Download summary: 0/0 files
    downloaded successfully.] and called nothing else. *)
Theorem downloadMany_nothing this env w :
  downloadMany this env [] w
  = (Resolved [],
     {| fs := fs w;
        calls := calls w ++
          [ConsoleMessage LogNormal "Starting download of 0 file.";
           ConsoleMessage LogNormal
             "Download summary: 0/0 files downloaded successfully."] |}).
Proof.
  rewrite downloadMany_unfold. cbn [for_loop length]. unfold_M. unfold record.
  cbn [fs calls]. by rewrite <- (assoc_L (++)).
Qed.

(** X22. The example [handleDownloadErrors] never reaches its [catch]. Its
    promise is never rejected, it is unsettled only when that of [downloadOne]
    is, and the only lines it prints itself, after the calls of [downloadOne],
    are the type and the code of the error and, when there is one, the message
    of the original error; never [Unexpected error]. When the URL cannot be
    fetched it prints [FetchError], [FETCH_ERROR] and the message of the
    cause. *)
Theorem handleDownloadErrors_reports env w :
  let downloader := Download.new {| options_timeout := None;
                                    options_fileNamingStrategy := None |} in
  let run := downloadOne downloader env "https://invalid-url.example"
               {| path := Some "./downloads"; fileName := Some "will-fail.txt";
                  downloadNumber := None; optFileNamingStrategy := None |} w in
  handleDownloadErrors env w
  = (match run.1 with
     | Resolved _ => Resolved tt
     | _ => Pending
     end,
     {| fs := fs run.2;
        calls := calls run.2 ++
          match run.1 with
          | Resolved (Failure error) =>
              ConsoleError ("Error type: " +:+ error_name error) ::
              ConsoleError ("Error code: " +:+ template (error_code error)) ::
              match error_originalError error with
              | Some originalError =>
                  [ConsoleError ("Original error: " +:+ error_message originalError)]
              | None => []
              end
          | _ => []
          end |})
  ∧ (∀ cause,
       axios_get env w "https://invalid-url.example" 5000 = Throws cause →
       ∃ logged,
         handleDownloadErrors env w
         = (Resolved tt,
            {| fs := fs w;
               calls := calls w ++
                 [AxiosGet "https://invalid-url.example" 5000;
                  ConsoleMessage LogError logged;
                  ConsoleError "Error type: FetchError";
                  ConsoleError "Error code: FETCH_ERROR";
                  ConsoleError ("Original error: " +:+ error_message cause)] |})).
Proof.
  intros downloader run.
  assert (handleDownloadErrors env w
          = (match run.1 with
             | Resolved _ => Resolved tt
             | _ => Pending
             end,
             {| fs := fs run.2;
                calls := calls run.2 ++
                  match run.1 with
                  | Resolved (Failure error) =>
                      ConsoleError ("Error type: " +:+ error_name error) ::
                      ConsoleError ("Error code: " +:+ template (error_code error)) ::
                      match error_originalError error with
                      | Some originalError =>
                          [ConsoleError ("Original error: " +:+
                                         error_message originalError)]
                      | None => []
                      end
                  | _ => []
                  end |})) as Hreport.
  { unfold handleDownloadErrors, await. unfold_M. fold downloader. fold run.
    pose proof (downloadOne_not_rejected downloader env "https://invalid-url.example"
                  {| path := Some "./downloads"; fileName := Some "will-fail.txt";
                     downloadNumber := None; optFileNamingStrategy := None |} w)
      as Hnever.
    fold run in Hnever.
    destruct run as [[[filePath|error]|e|] w1]; cbn [fst snd] in *.
    - by rewrite world_eta.
    - unfold record. cbn [fs calls].
      destruct (error_originalError error); cbn [fs calls];
        by rewrite <- !(assoc_L (++)).
    - by destruct (Hnever e).
    - by rewrite world_eta. }
  split; [done|]. intros cause Hget. rewrite Hreport. subst run.
  rewrite downloadOne_steps. change (timeout downloader) with 5000. rewrite Hget.
  eexists. unfold record.
  cbn [fst snd fs calls error_name error_code error_originalError template
       default from_option id].
  by rewrite <- !(assoc_L (++)).
Qed.

End MoreOfTheEngine.

Lemma handleDownloadErrors_reports_witness :
  ∃ logged,
    BasicUsage.handleDownloadErrors Cases.env_offline Sample.world
    = (Resolved tt,
       {| fs := fs Sample.world;
          calls :=
            [AxiosGet "https://invalid-url.example" 5000;
             ConsoleMessage LogError logged;
             ConsoleError "Error type: FetchError";
             ConsoleError "Error code: FETCH_ERROR";
             ConsoleError
               "Original error: getaddrinfo ENOTFOUND https://invalid-url.example"] |}).
Proof.
  apply (proj2 (handleDownloadErrors_reports Cases.env_offline Sample.world)
           (Error_ "getaddrinfo ENOTFOUND https://invalid-url.example")).
  reflexivity.
Defined.
